(** * YOLO loss ([yolo_loss.py]): intersection over union and [YoloLoss.forward]

    A shallow embedding of the two functions of the module over the real
    numbers.  Tensor entries are idealised reals: rounding, overflow and NaN
    of the underlying float arithmetic are outside the model.  [torch.sqrt]
    is read as [sqrt], which agrees with it on non-negative arguments only;
    statements that rely on a square root keep its argument non-negative.

    A dense tensor of shape (N, S, S, C) is a nested list; the last level is
    the channel vector of one grid cell.  Failures of the Python call
    (an unbound local, a shape mismatch) are values of [result]. *)

From Stdlib Require Import String Reals Lra Lia Arith Bool List.
Import ListNotations.

Open Scope R_scope.

(** ** Failures *)

Inductive error : Type :=
| UnboundLocalError   (* a local variable read before any assignment *)
| ShapeError.         (* reshape / broadcast / cat size mismatch *)

Inductive result (A : Type) : Type :=
| Ok (a : A)
| Err (e : error).

Arguments Ok {A} a.
Arguments Err {A} e.

Definition bind {A B : Type} (r : result A) (k : A -> result B) : result B :=
  match r with
  | Ok a => k a
  | Err e => Err e
  end.

Notation "x <- r ;; k" := (bind r (fun x => k))
  (at level 61, r at next level, right associativity).

Fixpoint mapM {A B : Type} (f : A -> result B) (l : list A) : result (list B) :=
  match l with
  | [] => Ok []
  | x :: l' => y <- f x ;; ys <- mapM f l' ;; Ok (y :: ys)
  end.

(** ** Indexing and slicing of the last dimension *)

(** [t[..., i:i+1]] read at one cell. *)
Definition ch (i : nat) (v : list R) : R := nth i v 0.

(** [t[..., a:b]] read at one cell. *)
Definition slice (a b : nat) (v : list R) : list R := firstn (b - a) (skipn a v).

(** The literal [1e-6]. *)
Definition eps : R := 1 / 1000000.

(** ** [intersection_over_union] *)

Module IoU.

(** The eight locals assigned by either [if] block. *)
Record corners : Type := mkCorners {
  box1_x1 : R; box1_y1 : R; box1_x2 : R; box1_y2 : R;
  box2_x1 : R; box2_y1 : R; box2_x2 : R; box2_y2 : R
}.

(** [.clamp(0)]: lower bound 0, no upper bound. *)
Definition clamp0 (x : R) : R := Rmax x 0.

(** Lines 35-46, once the eight locals are bound. *)
Definition iou_of_corners (c : corners) : R :=
  let x1 := Rmax (box1_x1 c) (box2_x1 c) in
  let y1 := Rmax (box1_y1 c) (box2_y1 c) in
  let x2 := Rmin (box1_x2 c) (box2_x2 c) in
  let y2 := Rmin (box1_y2 c) (box2_y2 c) in
  let intersection := clamp0 (x2 - x1) * clamp0 (y2 - y1) in
  let box1_area := Rabs ((box1_x2 c - box1_x1 c) * (box1_y2 c - box1_y1 c)) in
  let box2_area := Rabs ((box2_x2 c - box2_x1 c) * (box2_y2 c - box2_y1 c)) in
  intersection / (box1_area + box2_area - intersection + eps).

Definition midpoint_corners (boxes_preds boxes_labels : list R) : corners :=
  {| box1_x1 := ch 0 boxes_preds - ch 2 boxes_preds / 2;
     box1_y1 := ch 1 boxes_preds - ch 3 boxes_preds / 2;
     box1_x2 := ch 0 boxes_preds + ch 2 boxes_preds / 2;
     box1_y2 := ch 1 boxes_preds + ch 3 boxes_preds / 2;
     box2_x1 := ch 0 boxes_labels - ch 2 boxes_labels / 2;
     box2_y1 := ch 1 boxes_labels - ch 3 boxes_labels / 2;
     box2_x2 := ch 0 boxes_labels + ch 2 boxes_labels / 2;
     box2_y2 := ch 1 boxes_labels + ch 3 boxes_labels / 2 |}.

Definition direct_corners (boxes_preds boxes_labels : list R) : corners :=
  {| box1_x1 := ch 0 boxes_preds;
     box1_y1 := ch 1 boxes_preds;
     box1_x2 := ch 2 boxes_preds;
     box1_y2 := ch 3 boxes_preds;
     box2_x1 := ch 0 boxes_labels;
     box2_y1 := ch 1 boxes_labels;
     box2_x2 := ch 2 boxes_labels;
     box2_y2 := ch 3 boxes_labels |}.

(** The function on one pair of boxes (it is elementwise over the leading
    dimensions).  The two [if] statements run one after the other; when
    neither fires the locals are still unbound at line 35. *)
Definition intersection_over_union
    (boxes_preds boxes_labels : list R) (box_format : string) : result R :=
  let locals : option corners := None in
  let locals :=
    if String.eqb box_format "midpoint"%string
    then Some (midpoint_corners boxes_preds boxes_labels) else locals in
  let locals :=
    if String.eqb box_format "corners"%string
    then Some (direct_corners boxes_preds boxes_labels) else locals in
  match locals with
  | None => Err UnboundLocalError
  | Some c => Ok (iou_of_corners c)
  end.

(** Two corner-form rectangles share no area: one lies entirely to one side
    of the other along x or along y (touching edges allowed). *)
Definition disjoint (c : corners) : Prop :=
  box1_x2 c <= box2_x1 c \/ box2_x2 c <= box1_x1 c \/
  box1_y2 c <= box2_y1 c \/ box2_y2 c <= box1_y1 c.

End IoU.

(** ** Tensor helpers used by [YoloLoss.forward] *)

(** A tensor of shape (N, S, S, C). *)
Definition tensor4 : Type := list (list (list (list R))).

(** [n] consecutive blocks of [k] entries each. *)
Fixpoint chunks {A : Type} (k n : nat) (l : list A) : list (list A) :=
  match n with
  | O => []
  | S n' => firstn k l :: chunks k n' (skipn k l)
  end.

(** [x.reshape(-1, d1, d2, d3)]: the leading dimension is inferred from the
    number of entries, which the other three must divide. *)
Definition reshape (d1 d2 d3 : nat) (x : list (list R)) : result tensor4 :=
  let flat := concat x in
  let m := (d1 * d2 * d3)%nat in
  if (m =? 0)%nat then Err ShapeError
  else if negb (length flat mod m =? 0)%nat then Err ShapeError
  else Ok (map (fun img => map (chunks d3 d2) (chunks (d2 * d3) d1 img))
               (chunks m (length flat / m) flat)).

(** The target lines up with predictions of shape (n, s, s, _) and every
    cell carries at least [c] channels.  Broadcasting of size-one target
    dimensions is not modelled: any other leading shape is a mismatch. *)
Definition target_shape_ok (n s c : nat) (target : tensor4) : bool :=
  (length target =? n)%nat &&
  forallb (fun img =>
    (length img =? s)%nat &&
    forallb (fun row =>
      (length row =? s)%nat &&
      forallb (fun v => (c <=? length v)%nat) row) img) target.

(** The grid cells of a tensor in row-major order. *)
Definition cells_of (t : tensor4) : list (list R) := concat (concat t).

(** Scalar (size-one last dimension) times vector, and vector plus vector. *)
Definition vscale (k : R) (v : list R) : list R := map (Rmult k) v.
Definition vadd (u v : list R) : list R :=
  map (fun ab => fst ab + snd ab) (combine u v).

(** [v[..., a:b] = w] on one cell. *)
Definition assign_slice (a b : nat) (v w : list R) : list R :=
  firstn a v ++ w ++ skipn b v.

(** [torch.sign]. *)
Definition sign (x : R) : R :=
  if Rlt_dec 0 x then 1 else if Rlt_dec x 0 then -1 else 0.

(** [torch.max(_, dim=0)] down one column of the stacked tensor: the largest
    value and the index of its first occurrence. *)
Fixpoint torch_max_from (m : R) (mi i : nat) (l : list R) : R * nat :=
  match l with
  | [] => (m, mi)
  | x :: l' =>
      if Rlt_dec m x then torch_max_from x i (S i) l'
      else torch_max_from m mi (S i) l'
  end.

Definition torch_max (l : list R) : R * nat :=
  match l with
  | [] => (0, O)
  | x :: l' => torch_max_from x O 1%nat l'
  end.

Definition Rsum (l : list R) : R := fold_right Rplus 0 l.

(** [nn.MSELoss(reduction='sum')] on two flattened tensors. *)
Definition mse (input target : list R) : R :=
  Rsum (map (fun xy => (fst xy - snd xy) * (fst xy - snd xy)) (combine input target)).

(** ** [YoloLoss] *)

Module YoloLoss.

Record t : Type := mk {
  S : nat;
  B : nat;
  lambda_noobj : R;
  lambda_coord : R
}.

(** [__init__]. *)
Definition init (s b : nat) : t :=
  {| S := s; B := b; lambda_noobj := 5 / 10; lambda_coord := 5 |}.

End YoloLoss.

(** One grid cell: the channels of the reshaped predictions and of the
    target at that cell. *)
Abbreviation cell := (list R * list R)%type (only parsing).

(** A grid cell together with its [bestbox] index. *)
Abbreviation gated := (nat * (list R * list R))%type (only parsing).

(** Lines 60-63 at one cell. *)
Definition cell_ious (c : cell) : result (list R) :=
  let '(p, t) := c in
  iou_b1 <- IoU.intersection_over_union (slice 1 5 p) (slice 1 5 t) "midpoint"%string ;;
  iou_b2 <- IoU.intersection_over_union (slice 6 10 p) (slice 1 5 t) "midpoint"%string ;;
  Ok [iou_b1; iou_b2].

Definition cell_bestbox (c : cell) : result nat :=
  ious <- cell_ious c ;;
  Ok (snd (torch_max ious)).

(** Line 64. *)
Definition exists_box (t : list R) : R := ch 0 t.

(** Lines 69-72: the masked selected box, before the width/height transform. *)
Definition masked_box (g : gated) : list R :=
  let '(bestbox, (p, t)) := g in
  vscale (exists_box t)
    (vadd (vscale (INR bestbox) (slice 6 10 p))
          (vscale (1 - INR bestbox) (slice 1 5 p))).

(** Lines 73-75, the right-hand side at one entry. *)
Definition wh_pred (v : R) : R := sign v * sqrt (Rabs (v + eps)).

(** Lines 69-75. *)
Definition box_predictions (g : gated) : list R :=
  let bp := masked_box g in
  assign_slice 2 4 bp (map wh_pred (slice 2 4 bp)).

(** Line 77: the masked target box, before the width/height transform. *)
Definition masked_target (g : gated) : list R :=
  let '(_, (_, t)) := g in
  vscale (exists_box t) (slice 1 5 t).

(** Lines 77-78. *)
Definition box_targets (g : gated) : list R :=
  let bt := masked_target g in
  assign_slice 2 4 bt (map sqrt (slice 2 4 bt)).

(** Lines 81-84. *)
Definition box_loss (gs : list gated) : R :=
  mse (concat (map box_predictions gs)) (concat (map box_targets gs)).

(** Lines 89-91. *)
Definition pred_box (g : gated) : list R :=
  let '(bestbox, (p, _)) := g in
  vadd (vscale (INR bestbox) (slice 5 6 p))
       (vscale (1 - INR bestbox) (slice 0 1 p)).

(** Lines 94-97. *)
Definition object_loss (gs : list gated) : R :=
  mse (concat (map (fun g => vscale (exists_box (snd (snd g))) (pred_box g)) gs))
      (concat (map (fun g => vscale (exists_box (snd (snd g))) (slice 0 1 (snd (snd g)))) gs)).

(** Lines 103-111. *)
Definition no_object_loss (gs : list gated) : R :=
  mse (concat (map (fun g => vscale (1 - exists_box (snd (snd g))) (slice 0 1 (fst (snd g)))) gs))
      (concat (map (fun g => vscale (1 - exists_box (snd (snd g))) (slice 0 1 (snd (snd g)))) gs))
  +
  mse (concat (map (fun g => vscale (1 - exists_box (snd (snd g))) (slice 5 6 (fst (snd g)))) gs))
      (concat (map (fun g => vscale (1 - exists_box (snd (snd g))) (slice 0 1 (snd (snd g)))) gs)).

(** The three sums of lines 59-111 and [predictions.shape[0]]. *)
Record loss_terms : Type := mkTerms {
  t_box_loss : R;
  t_object_loss : R;
  t_no_object_loss : R;
  t_batch : nat
}.

(** Lines 59-64: reshape, pair every prediction cell with its target cell
    and pick [bestbox].  With fewer than ten prediction channels the slices
    [6:10] and [5:6] come out short and the stacking or the broadcast
    fails; likewise with fewer than five target channels. *)
Definition gate_cells (self : YoloLoss.t) (predictions : list (list R))
    (target : tensor4) : result (nat * list gated) :=
  predictions <- reshape (YoloLoss.S self) (YoloLoss.S self)
                         (YoloLoss.B self * 5) predictions ;;
  if negb (10 <=? YoloLoss.B self * 5)%nat then Err ShapeError
  else if negb (target_shape_ok (length predictions) (YoloLoss.S self) 5 target)
  then Err ShapeError
  else
    let cells := combine (cells_of predictions) (cells_of target) in
    bestbox <- mapM cell_bestbox cells ;;
    Ok (length predictions, combine bestbox cells).

Definition forward_terms (self : YoloLoss.t) (predictions : list (list R))
    (target : tensor4) : result loss_terms :=
  ng <- gate_cells self predictions target ;;
  let '(n, gs) := ng in
  Ok {| t_box_loss := box_loss gs;
        t_object_loss := object_loss gs;
        t_no_object_loss := no_object_loss gs;
        t_batch := n |}.

(** Lines 122-129. *)
Definition total_loss (self : YoloLoss.t) (ts : loss_terms) : R :=
  (YoloLoss.lambda_coord self * t_box_loss ts
   + t_object_loss ts
   + YoloLoss.lambda_noobj self * t_no_object_loss ts)
  / INR (t_batch ts).

Definition forward (self : YoloLoss.t) (predictions : list (list R))
    (target : tensor4) : result R :=
  ts <- forward_terms self predictions target ;;
  Ok (total_loss self ts).

(** ** Vocabulary of the statements *)

(** The two overlap ratios of lines 60-61 at one cell, with the default
    "midpoint" format resolved, and the index chosen on line 63. *)
Definition iou_b1 (c : cell) : R :=
  IoU.iou_of_corners (IoU.midpoint_corners (slice 1 5 (fst c)) (slice 1 5 (snd c))).

Definition iou_b2 (c : cell) : R :=
  IoU.iou_of_corners (IoU.midpoint_corners (slice 6 10 (fst c)) (slice 1 5 (snd c))).

Definition bestbox_of (c : cell) : nat := snd (torch_max [iou_b1 c; iou_b2 c]).

Definition gate (c : cell) : gated := (bestbox_of c, c).

(** Channel counts under which every slice of [forward] is full. *)
Definition wf_cell (c : cell) : Prop :=
  (10 <= length (fst c))%nat /\ (5 <= length (snd c))%nat.

(** A nested list is a dense tensor of shape (n, s1, s2, c). *)
Definition tensor_shape (n s1 s2 c : nat) (t : tensor4) : Prop :=
  length t = n /\
  Forall (fun img => length img = s1 /\
    Forall (fun row => length row = s2 /\
      Forall (fun v => length v = c) row) img) t.

(** Predictions of shape (n, S*S*B*5) and a target that lines up with them,
    for a module with at least the two boxes per cell that [forward] reads. *)
Definition well_shaped (self : YoloLoss.t) (n : nat)
    (predictions : list (list R)) (target : tensor4) : Prop :=
  (1 <= YoloLoss.S self)%nat /\ (2 <= YoloLoss.B self)%nat /\
  length predictions = n /\
  Forall (fun row => length row =
            (YoloLoss.S self * YoloLoss.S self * (YoloLoss.B self * 5))%nat)
         predictions /\
  target_shape_ok n (YoloLoss.S self) 5 target = true.

(** A valid target cell: indicator 0 or 1, width and height non-negative. *)
Definition valid_cell (t : list R) : Prop :=
  (ch 0 t = 0 \/ ch 0 t = 1) /\ 0 <= ch 3 t /\ 0 <= ch 4 t.

Definition valid_target (target : tensor4) : Prop :=
  Forall valid_cell (cells_of target).

(** The width/height transform of the predictions as the specification
    words it: the absolute value is taken before [eps] is added. *)
Definition wh_pred_spec (v : R) : R := sign v * sqrt (Rabs v + eps).

(** The no-object loss as the specification words it: over the cells whose
    indicator is 0, the squares of the two raw objectness scores. *)
Definition no_object_loss_spec (cells : list cell) : R :=
  Rsum (map (fun c => ch 0 (fst c) * ch 0 (fst c) + ch 5 (fst c) * ch 5 (fst c))
            (filter (fun c => if Req_dec_T (ch 0 (snd c)) 0 then true else false)
                    cells)).

(** A perfect prediction at one cell: each of the [b] predicted boxes
    repeats the target's [obj, x, y, w, h]. *)
Definition perfect_cell (b : nat) (c : cell) : Prop :=
  fst c = concat (repeat (slice 0 5 (snd c)) b).

(** What is left of the loss at a perfect prediction: the gap between the
    two width/height transforms at one cell. *)
Definition wh_gap (t : list R) : R :=
  (wh_pred (exists_box t * ch 3 t) - sqrt (exists_box t * ch 3 t)) *
  (wh_pred (exists_box t * ch 3 t) - sqrt (exists_box t * ch 3 t)) +
  (wh_pred (exists_box t * ch 4 t) - sqrt (exists_box t * ch 4 t)) *
  (wh_pred (exists_box t * ch 4 t) - sqrt (exists_box t * ch 4 t)).

(** [torch.ones((n, s1, s2, c))], the target of the module's self-test. *)
Definition torch_ones (n s1 s2 c : nat) : tensor4 :=
  repeat (repeat (repeat (repeat 1 c) s2) s1) n.

(** Per-cell contributions to the three sums. *)
Definition box_term (g : gated) : R := mse (box_predictions g) (box_targets g).

Definition object_term (g : gated) : R :=
  let e := exists_box (snd (snd g)) in
  let pb := INR (fst g) * ch 5 (fst (snd g)) + (1 - INR (fst g)) * ch 0 (fst (snd g)) in
  (e * pb - e * ch 0 (snd (snd g))) * (e * pb - e * ch 0 (snd (snd g))).

Definition no_object_term (c : cell) : R :=
  let e := exists_box (snd c) in
  ((1 - e) * ch 0 (fst c) - (1 - e) * ch 0 (snd c)) *
  ((1 - e) * ch 0 (fst c) - (1 - e) * ch 0 (snd c))
  +
  ((1 - e) * ch 5 (fst c) - (1 - e) * ch 0 (snd c)) *
  ((1 - e) * ch 5 (fst c) - (1 - e) * ch 0 (snd c)).

(** [t[..., a:b]] on a whole tensor. *)
Definition tslice (a b : nat) (t : tensor4) : tensor4 :=
  map (map (map (slice a b))) t.

(** A gated cell used to instantiate the per-cell statements: box 0 is
    selected, both predicted boxes are [0, 0, 4, 4] and the target box is
    [0, 0, 1, 1]. *)
Definition sample_gated : gated :=
  (0%nat, ([1; 0; 0; 4; 4; 1; 0; 0; 4; 4], [1; 0; 0; 1; 1])).

(** One cell with its target cut to [target[..., 0:5]]. *)
Definition cut_cell (c : cell) : cell := (fst c, slice 0 5 (snd c)).
Definition cut (g : gated) : gated := (fst g, cut_cell (snd g)).

(** ** Vocabulary of the further properties *)

(** A midpoint-format box rewritten in corner form, as lines 16-19 do. *)
Definition to_corners (b : list R) : list R :=
  [ ch 0 b - ch 2 b / 2; ch 1 b - ch 3 b / 2;
    ch 0 b + ch 2 b / 2; ch 1 b + ch 3 b / 2 ].

(** A corner-format box rewritten in midpoint form. *)
Definition to_midpoint (b : list R) : list R :=
  [ (ch 0 b + ch 2 b) / 2; (ch 1 b + ch 3 b) / 2;
    ch 2 b - ch 0 b; ch 3 b - ch 1 b ].

(** A midpoint-format box moved by [(dx, dy)]. *)
Definition shift_box (dx dy : R) (b : list R) : list R :=
  [ ch 0 b + dx; ch 1 b + dy; ch 2 b; ch 3 b ].

(** All eight corner coordinates moved by [(dx, dy)]. *)
Definition shift_corners (dx dy : R) (c : IoU.corners) : IoU.corners :=
  {| IoU.box1_x1 := IoU.box1_x1 c + dx; IoU.box1_y1 := IoU.box1_y1 c + dy;
     IoU.box1_x2 := IoU.box1_x2 c + dx; IoU.box1_y2 := IoU.box1_y2 c + dy;
     IoU.box2_x1 := IoU.box2_x1 c + dx; IoU.box2_y1 := IoU.box2_y1 c + dy;
     IoU.box2_x2 := IoU.box2_x2 c + dx; IoU.box2_y2 := IoU.box2_y2 c + dy |}.

(** The two boxes exchanged. *)
Definition swap_corners (c : IoU.corners) : IoU.corners :=
  {| IoU.box1_x1 := IoU.box2_x1 c; IoU.box1_y1 := IoU.box2_y1 c;
     IoU.box1_x2 := IoU.box2_x2 c; IoU.box1_y2 := IoU.box2_y2 c;
     IoU.box2_x1 := IoU.box1_x1 c; IoU.box2_y1 := IoU.box1_y1 c;
     IoU.box2_x2 := IoU.box1_x2 c; IoU.box2_y2 := IoU.box1_y2 c |}.

(** Channel [k] of the predicted box that [bestbox] selects: box 0 starts
    at channel 0, box 1 at channel 5. *)
Definition selected (k : nat) (g : gated) : R :=
  ch (5 * fst g + k) (fst (snd g)).

(** The target marks the cell as holding an object. *)
Definition holds_object (g : gated) : bool :=
  if Req_dec_T (ch 0 (snd (snd g))) 1 then true else false.



(** A cell that contributes nothing to the loss: where the target holds
    an object, the selected box has score 1, the target's centre, and a
    transformed width and height equal to the square roots of the
    target's; elsewhere both raw scores are 0. *)
Definition cell_loss_zero (g : gated) : Prop :=
  if holds_object g
  then selected 0 g = 1 /\
       selected 1 g = ch 1 (snd (snd g)) /\
       selected 2 g = ch 2 (snd (snd g)) /\
       wh_pred (selected 3 g) = sqrt (ch 3 (snd (snd g))) /\
       wh_pred (selected 4 g) = sqrt (ch 4 (snd (snd g)))
  else ch 0 (fst (snd g)) = 0 /\ ch 5 (fst (snd g)) = 0.

(** * Properties *)

(** ** Intersection over union *)

Section IoUFacts.

Import IoU.

Lemma clamp0_nonneg (x : R) : 0 <= clamp0 x.
Proof. unfold clamp0. apply Rmax_r. Qed.

Lemma clamp0_of_nonpos (x : R) : x <= 0 -> clamp0 x = 0.
Proof. intros Hx. unfold clamp0. now apply Rmax_right. Qed.

Lemma iou_midpoint (a b : list R) :
  intersection_over_union a b "midpoint" = Ok (iou_of_corners (midpoint_corners a b)).
Proof. reflexivity. Qed.

Lemma iou_corners (a b : list R) :
  intersection_over_union a b "corners" = Ok (iou_of_corners (direct_corners a b)).
Proof. reflexivity. Qed.

(** The overlap of two disjoint rectangles is clamped to zero along the
    separating axis, so the quotient is zero whatever the areas are. *)
Lemma iou_of_disjoint (c : corners) : disjoint c -> iou_of_corners c = 0.
Proof.
  intros Hd. unfold iou_of_corners.
  set (dx := Rmin (box1_x2 c) (box2_x2 c) - Rmax (box1_x1 c) (box2_x1 c)).
  set (dy := Rmin (box1_y2 c) (box2_y2 c) - Rmax (box1_y1 c) (box2_y1 c)).
  assert (Hzero : clamp0 dx * clamp0 dy = 0).
  { assert (Hxy : dx <= 0 \/ dy <= 0).
    { unfold dx, dy.
      pose proof (Rmin_l (box1_x2 c) (box2_x2 c)).
      pose proof (Rmin_r (box1_x2 c) (box2_x2 c)).
      pose proof (Rmax_l (box1_x1 c) (box2_x1 c)).
      pose proof (Rmax_r (box1_x1 c) (box2_x1 c)).
      pose proof (Rmin_l (box1_y2 c) (box2_y2 c)).
      pose proof (Rmin_r (box1_y2 c) (box2_y2 c)).
      pose proof (Rmax_l (box1_y1 c) (box2_y1 c)).
      pose proof (Rmax_r (box1_y1 c) (box2_y1 c)).
      destruct Hd as [Hd | [Hd | [Hd | Hd]]]; [left | left | right | right]; lra. }
    destruct Hxy as [Hx | Hy].
    - rewrite (clamp0_of_nonpos dx Hx). ring.
    - rewrite (clamp0_of_nonpos dy Hy). ring. }
  rewrite Hzero. unfold Rdiv. ring.
Qed.

(** C6: two midpoint-format boxes with non-negative width and height whose
    corner-form rectangles do not overlap have intersection over union
    exactly 0; in particular boxes (0,0,2,2) and (10,10,2,2). *)
Theorem iou_non_overlapping :
  (forall a b : list R,
      0 <= ch 2 a -> 0 <= ch 3 a -> 0 <= ch 2 b -> 0 <= ch 3 b ->
      disjoint (midpoint_corners a b) ->
      intersection_over_union a b "midpoint" = Ok 0)
  /\ intersection_over_union [0; 0; 2; 2] [10; 10; 2; 2] "midpoint" = Ok 0.
Proof.
  assert (Hgen : forall a b : list R,
             disjoint (midpoint_corners a b) ->
             intersection_over_union a b "midpoint" = Ok 0).
  { intros a b Hd. rewrite iou_midpoint. f_equal. now apply iou_of_disjoint. }
  split.
  - intros a b _ _ _ _ Hd. now apply Hgen.
  - apply Hgen. left. unfold midpoint_corners, ch. simpl. lra.
Qed.

Lemma iou_non_overlapping_witness :
  0 <= ch 2 [1; 1; 2; 2] /\ 0 <= ch 3 [1; 1; 2; 2] /\
  0 <= ch 2 [1; 4; 2; 2] /\ 0 <= ch 3 [1; 4; 2; 2] /\
  disjoint (midpoint_corners [1; 1; 2; 2] [1; 4; 2; 2]) /\
  intersection_over_union [1; 1; 2; 2] [1; 4; 2; 2] "midpoint" = Ok 0.
Proof.
  assert (Hw : 0 <= 2) by lra.
  assert (Hd : disjoint (midpoint_corners [1; 1; 2; 2] [1; 4; 2; 2])).
  { right. right. left. unfold midpoint_corners, ch. simpl. lra. }
  repeat split; try exact Hw; try exact Hd.
  exact (proj1 iou_non_overlapping [1; 1; 2; 2] [1; 4; 2; 2] Hw Hw Hw Hw Hd).
Defined.

(** C10: only "midpoint" and "corners" bind the corner locals; any other
    [box_format] leaves them unbound and the call fails instead of
    returning a value. *)
Theorem iou_unknown_format_fails (a b : list R) (box_format : string) :
  box_format <> "midpoint"%string -> box_format <> "corners"%string ->
  intersection_over_union a b box_format = Err UnboundLocalError
  /\ (exists v, intersection_over_union a b "midpoint" = Ok v)
  /\ (exists v, intersection_over_union a b "corners" = Ok v).
Proof.
  intros Hm Hc. split; [| split].
  - unfold intersection_over_union.
    apply String.eqb_neq in Hm. apply String.eqb_neq in Hc.
    now rewrite Hm, Hc.
  - eexists. apply iou_midpoint.
  - eexists. apply iou_corners.
Qed.

Lemma iou_unknown_format_fails_witness :
  intersection_over_union [0; 0; 2; 2] [0; 0; 2; 2] "xyxy" = Err UnboundLocalError.
Proof.
  refine (proj1 (iou_unknown_format_fails [0; 0; 2; 2] [0; 0; 2; 2] "xyxy" _ _));
    discriminate.
Defined.

End IoUFacts.

(** ** Shapes: [reshape] and the pairing of cells *)

Section Shapes.

Lemma chunks_length {A : Type} (k n : nat) (l : list A) :
  length (chunks k n l) = n.
Proof.
  revert l. induction n as [| n IH]; intros l; simpl; [reflexivity |].
  now rewrite IH.
Qed.

Lemma chunks_widths {A : Type} (k n : nat) (l : list A) :
  length l = (n * k)%nat -> Forall (fun c => length c = k) (chunks k n l).
Proof.
  revert l. induction n as [| n IH]; intros l Hl; simpl; constructor.
  - rewrite length_firstn. simpl in Hl. lia.
  - apply IH. rewrite length_skipn. simpl in Hl. lia.
Qed.

Lemma concat_uniform_length {A : Type} (k : nat) (ls : list (list A)) :
  Forall (fun c => length c = k) ls -> length (concat ls) = (length ls * k)%nat.
Proof.
  induction 1 as [| c ls Hc _ IH]; simpl; [reflexivity |].
  rewrite length_app, IH, Hc. reflexivity.
Qed.

Lemma reshape_ok (d1 d2 d3 n : nat) (x : list (list R)) :
  (d1 * d2 * d3)%nat <> O ->
  length (concat x) = (n * (d1 * d2 * d3))%nat ->
  exists preds, reshape d1 d2 d3 x = Ok preds /\ tensor_shape n d1 d2 d3 preds.
Proof.
  intros Hm Hlen. unfold reshape.
  apply Nat.eqb_neq in Hm as Hm'. rewrite Hm'.
  rewrite Hlen, Nat.Div0.mod_mul, Nat.div_mul by exact Hm. simpl.
  eexists. split; [reflexivity |].
  split.
  - now rewrite length_map, chunks_length.
  - apply Forall_map.
    eapply Forall_impl; [| apply (chunks_widths _ n); now rewrite Hlen].
    intros img Himg. cbv beta. split.
    + now rewrite length_map, chunks_length.
    + apply Forall_map.
      eapply Forall_impl;
        [| apply (chunks_widths (d2 * d3) d1); rewrite Himg; lia].
      intros row Hrow. cbv beta. split.
      * apply chunks_length.
      * apply chunks_widths. rewrite Hrow. lia.
Qed.

Lemma tensor_shape_cells (n s1 s2 c : nat) (t : tensor4) :
  tensor_shape n s1 s2 c t ->
  length (cells_of t) = (n * s1 * s2)%nat /\
  Forall (fun v => length v = c) (cells_of t).
Proof.
  intros [Hn Ht]. unfold cells_of.
  assert (Himgs : Forall (fun img => length img = s1) t).
  { eapply Forall_impl; [| exact Ht]. now intros img [H _]. }
  assert (Hrows : Forall (fun row => length row = s2 /\
                                     Forall (fun v => length v = c) row) (concat t)).
  { apply Forall_concat. eapply Forall_impl; [| exact Ht]. now intros img [_ H]. }
  split.
  - rewrite (concat_uniform_length s2).
    + rewrite (concat_uniform_length s1 t Himgs), Hn. reflexivity.
    + eapply Forall_impl; [| exact Hrows]. now intros row [H _].
  - apply Forall_concat. eapply Forall_impl; [| exact Hrows]. now intros row [_ H].
Qed.

Lemma target_shape_ok_cells (n s c : nat) (t : tensor4) :
  target_shape_ok n s c t = true ->
  length (cells_of t) = (n * s * s)%nat /\
  Forall (fun v => (c <= length v)%nat) (cells_of t).
Proof.
  unfold target_shape_ok. intros H.
  apply andb_true_iff in H as [Hn Ht]. apply Nat.eqb_eq in Hn.
  rewrite forallb_forall in Ht.
  assert (Himgs : Forall (fun img => length img = s) t).
  { apply Forall_forall. intros img Hin.
    specialize (Ht img Hin). apply andb_true_iff in Ht as [H _].
    now apply Nat.eqb_eq. }
  assert (Hrows : Forall (fun row => length row = s /\
                                     Forall (fun v => (c <= length v)%nat) row)
                         (concat t)).
  { apply Forall_concat. apply Forall_forall. intros img Hin.
    specialize (Ht img Hin). apply andb_true_iff in Ht as [_ H].
    rewrite forallb_forall in H.
    apply Forall_forall. intros row Hrow.
    specialize (H row Hrow). apply andb_true_iff in H as [Hs Hc].
    split; [now apply Nat.eqb_eq |].
    rewrite forallb_forall in Hc.
    apply Forall_forall. intros v Hv. apply Nat.leb_le. now apply Hc. }
  unfold cells_of. split.
  - rewrite (concat_uniform_length s).
    + rewrite (concat_uniform_length s t Himgs), Hn. reflexivity.
    + eapply Forall_impl; [| exact Hrows]. now intros row [H _].
  - apply Forall_concat. eapply Forall_impl; [| exact Hrows]. now intros row [_ H].
Qed.

Lemma tensor_shape_target_ok (n s c k : nat) (t : tensor4) :
  tensor_shape n s s c t -> (k <= c)%nat -> target_shape_ok n s k t = true.
Proof.
  intros [Hn Ht] Hk. unfold target_shape_ok.
  apply andb_true_iff. split; [now apply Nat.eqb_eq |].
  apply forallb_forall. intros img Hin.
  rewrite Forall_forall in Ht. destruct (Ht img Hin) as [Hs Hrows].
  apply andb_true_iff. split; [now apply Nat.eqb_eq |].
  apply forallb_forall. intros row Hrow.
  rewrite Forall_forall in Hrows. destruct (Hrows row Hrow) as [Hs' Hcells].
  apply andb_true_iff. split; [now apply Nat.eqb_eq |].
  apply forallb_forall. intros v Hv.
  rewrite Forall_forall in Hcells. rewrite (Hcells v Hv). now apply Nat.leb_le.
Qed.

Lemma combine_fst {A B : Type} (l : list A) (l' : list B) :
  length l = length l' -> map fst (combine l l') = l.
Proof.
  revert l'. induction l as [| a l IH]; intros [| b l'] H; simpl in *;
    try discriminate; [reflexivity |].
  f_equal. apply IH. lia.
Qed.

Lemma combine_snd {A B : Type} (l : list A) (l' : list B) :
  length l = length l' -> map snd (combine l l') = l'.
Proof.
  revert l'. induction l as [| a l IH]; intros [| b l'] H; simpl in *;
    try discriminate; [reflexivity |].
  f_equal. apply IH. lia.
Qed.

Lemma combine_map_self {A B : Type} (f : A -> B) (l : list A) :
  combine (map f l) l = map (fun a => (f a, a)) l.
Proof. induction l as [| a l IH]; simpl; [reflexivity | now rewrite IH]. Qed.

Lemma mapM_pure {A B : Type} (f : A -> result B) (g : A -> B) (l : list A) :
  (forall a, f a = Ok (g a)) -> mapM f l = Ok (map g l).
Proof.
  intros Hfg. induction l as [| a l IH]; simpl; [reflexivity |].
  now rewrite Hfg, IH.
Qed.

Lemma cell_bestbox_pure (c : cell) : cell_bestbox c = Ok (bestbox_of c).
Proof. destruct c as [p t]. reflexivity. Qed.

End Shapes.

(** ** [forward] returns on well-shaped inputs *)

Section ForwardRuns.

Variable self : YoloLoss.t.
Variable n : nat.
Variable predictions : list (list R).
Variable target : tensor4.
Hypothesis Hshape : well_shaped self n predictions target.

Lemma gate_cells_ok :
  exists preds,
    reshape (YoloLoss.S self) (YoloLoss.S self) (YoloLoss.B self * 5) predictions
      = Ok preds /\
    length preds = n /\
    map fst (combine (cells_of preds) (cells_of target)) = cells_of preds /\
    map snd (combine (cells_of preds) (cells_of target)) = cells_of target /\
    Forall wf_cell (combine (cells_of preds) (cells_of target)) /\
    gate_cells self predictions target
      = Ok (n, map gate (combine (cells_of preds) (cells_of target))).
Proof.
  destruct Hshape as (HS & HB & Hn & Hrows & Htgt).
  set (s := YoloLoss.S self) in *. set (b := YoloLoss.B self) in *.
  assert (Hm : (s * s * (b * 5))%nat <> O) by nia.
  assert (Hflat : length (concat predictions) = (n * (s * s * (b * 5)))%nat).
  { rewrite (concat_uniform_length _ _ Hrows), Hn. reflexivity. }
  destruct (reshape_ok s s (b * 5) n predictions Hm Hflat) as (preds & Hre & Hsh).
  destruct (tensor_shape_cells _ _ _ _ _ Hsh) as [Hlenp Hwp].
  destruct (target_shape_ok_cells _ _ _ _ Htgt) as [Hlent Hwt].
  assert (Hlen : length (cells_of preds) = length (cells_of target)) by lia.
  exists preds. split; [exact Hre |].
  split; [apply Hsh |].
  split; [now apply combine_fst |].
  split; [now apply combine_snd |].
  split.
  - apply Forall_forall. intros [p t] Hin. split; simpl.
    + apply in_combine_l in Hin. rewrite Forall_forall in Hwp.
      rewrite (Hwp p Hin). lia.
    + apply in_combine_r in Hin. rewrite Forall_forall in Hwt. now apply Hwt.
  - unfold gate_cells. fold s b. rewrite Hre. cbn [bind].
    assert (Hb10 : (10 <=? b * 5)%nat = true) by (apply Nat.leb_le; lia).
    rewrite Hb10. cbn [negb].
    destruct Hsh as [Hnp _]. rewrite Hnp, Htgt. cbn [negb].
    rewrite (mapM_pure cell_bestbox bestbox_of _ cell_bestbox_pure). cbn [bind].
    now rewrite combine_map_self.
Qed.

Lemma forward_terms_ok :
  exists preds,
    reshape (YoloLoss.S self) (YoloLoss.S self) (YoloLoss.B self * 5) predictions
      = Ok preds /\
    length preds = n /\
    map snd (combine (cells_of preds) (cells_of target)) = cells_of target /\
    Forall wf_cell (combine (cells_of preds) (cells_of target)) /\
    forward_terms self predictions target
      = Ok (let gs := map gate (combine (cells_of preds) (cells_of target)) in
            {| t_box_loss := box_loss gs;
               t_object_loss := object_loss gs;
               t_no_object_loss := no_object_loss gs;
               t_batch := n |}).
Proof.
  destruct gate_cells_ok as (preds & Hre & Hn & _ & Hsnd & Hwf & Hg).
  exists preds. repeat (split; [assumption |]).
  unfold forward_terms. now rewrite Hg.
Qed.

End ForwardRuns.

(** ** Sums of squares *)

Section SumsOfSquares.

Lemma Rsum_nonneg (l : list R) : Forall (fun x => 0 <= x) l -> 0 <= Rsum l.
Proof.
  induction 1 as [| x l Hx _ IH]; simpl; lra.
Qed.

Lemma Rsum_zero (l : list R) : Forall (fun x => x = 0) l -> Rsum l = 0.
Proof.
  induction 1 as [| x l Hx _ IH]; simpl; lra.
Qed.

Lemma Rsum_app (l l' : list R) : Rsum (l ++ l') = Rsum l + Rsum l'.
Proof.
  induction l as [| x l IH]; simpl; [lra | rewrite IH; lra].
Qed.

Lemma mse_nonneg (a b : list R) : 0 <= mse a b.
Proof.
  unfold mse. apply Rsum_nonneg. apply Forall_map.
  apply Forall_forall. intros [x y] _. cbn [fst snd].
  apply (Rle_0_sqr (x - y)).
Qed.

Lemma mse_app (a b c d : list R) :
  length a = length c -> mse (a ++ b) (c ++ d) = mse a c + mse b d.
Proof.
  revert c. induction a as [| x a IH]; intros [| y c] H; simpl in H;
    try discriminate.
  - change (mse b d = mse [] [] + mse b d).
    unfold mse at 2. simpl. ring.
  - injection H as H.
    change (mse ((x :: a) ++ b) ((y :: c) ++ d))
      with ((x - y) * (x - y) + mse (a ++ b) (c ++ d)).
    change (mse (x :: a) (y :: c)) with ((x - y) * (x - y) + mse a c).
    rewrite (IH c H). ring.
Qed.

(** A sum over two flattened tensors is the sum, over the cells, of the
    per-cell sums, as soon as the two channel vectors have equal width. *)
Lemma mse_concat {A : Type} (f g : A -> list R) (l : list A) :
  Forall (fun x => length (f x) = length (g x)) l ->
  mse (concat (map f l)) (concat (map g l))
  = Rsum (map (fun x => mse (f x) (g x)) l).
Proof.
  induction 1 as [| x l Hx _ IH]; simpl; [reflexivity |].
  rewrite mse_app by exact Hx. now rewrite IH.
Qed.

Lemma total_loss_nonneg (s b : nat) (ts : loss_terms) :
  0 <= t_box_loss ts -> 0 <= t_object_loss ts -> 0 <= t_no_object_loss ts ->
  (1 <= t_batch ts)%nat ->
  0 <= total_loss (YoloLoss.init s b) ts.
Proof.
  intros Hb Ho Hn HN. unfold total_loss. simpl.
  assert (HNr : 0 < INR (t_batch ts)) by (apply lt_0_INR; lia).
  apply Rmult_le_pos; [nra |].
  left. now apply Rinv_0_lt_compat.
Qed.

Lemma no_object_loss_nonneg (gs : list gated) : 0 <= no_object_loss gs.
Proof.
  unfold no_object_loss.
  apply Rplus_le_le_0_compat; apply mse_nonneg.
Qed.

End SumsOfSquares.

(** ** The returned scalar is non-negative *)

Section NonNegative.

Lemma forward_returns_nonneg (self : YoloLoss.t) (s b n : nat)
    (predictions : list (list R)) (target : tensor4) :
  self = YoloLoss.init s b -> (1 <= n)%nat ->
  well_shaped self n predictions target ->
  exists v, forward self predictions target = Ok v /\ 0 <= v.
Proof.
  intros Hself Hn Hsh.
  destruct (forward_terms_ok self n predictions target Hsh)
    as (preds & _ & _ & _ & _ & Hts).
  unfold forward. rewrite Hts. cbn [bind].
  eexists. split; [reflexivity |].
  rewrite Hself. apply total_loss_nonneg; cbn.
  - apply mse_nonneg.
  - apply mse_nonneg.
  - apply no_object_loss_nonneg.
  - exact Hn.
Qed.

(** C3: for a batch of N >= 1 images, predictions of shape (N, S*S*B*5)
    and a valid target lined up with them, [forward] returns a scalar and
    that scalar is non-negative. *)
Theorem forward_nonneg (s b n : nat) (predictions : list (list R))
    (target : tensor4) :
  (1 <= n)%nat ->
  well_shaped (YoloLoss.init s b) n predictions target ->
  valid_target target ->
  exists v, forward (YoloLoss.init s b) predictions target = Ok v /\ 0 <= v.
Proof.
  intros Hn Hsh _.
  now apply (forward_returns_nonneg _ s b n).
Qed.

Lemma forward_nonneg_witness :
  exists v,
    forward (YoloLoss.init 1 2) [[3; 0; 0; 2; 2; 1; 0; 0; 1; 1]]
            [[[[1; 0; 0; 1; 1]]]] = Ok v /\ 0 <= v.
Proof.
  apply (forward_nonneg 1 2 1).
  - lia.
  - unfold well_shaped. cbn.
    split; [lia |]. split; [lia |]. split; [reflexivity |].
    split; [| reflexivity].
    constructor; [reflexivity | constructor].
  - unfold valid_target, valid_cell, cells_of, ch. cbn.
    constructor; [| constructor].
    split; [now right | split; simpl; lra].
Defined.

Lemma torch_ones_shape_ok (n s c k : nat) :
  (k <= c)%nat -> target_shape_ok n s k (torch_ones n s s c) = true.
Proof.
  intros Hk. apply (tensor_shape_target_ok n s c); [| exact Hk].
  unfold tensor_shape, torch_ones. split; [apply repeat_length |].
  apply Forall_forall. intros img Himg. apply repeat_spec in Himg. subst img.
  split; [apply repeat_length |].
  apply Forall_forall. intros row Hrow. apply repeat_spec in Hrow. subst row.
  split; [apply repeat_length |].
  apply Forall_forall. intros v Hv. apply repeat_spec in Hv. subst v.
  apply repeat_length.
Qed.

End NonNegative.

(** ** The loss terms cell by cell *)

(** Names the first channels of a channel vector known to be long enough. *)
Ltac expose v H :=
  repeat (destruct v as [| ? v]; [simpl in H; lia |]).

Section PerCell.

Lemma sign_0 : sign 0 = 0.
Proof.
  unfold sign. destruct (Rlt_dec 0 0) as [H | _]; [lra |].
  destruct (Rlt_dec 0 0) as [H | _]; [lra | reflexivity].
Qed.

Lemma sign_pos (x : R) : 0 < x -> sign x = 1.
Proof.
  intros Hx. unfold sign. destruct (Rlt_dec 0 x) as [_ | H]; [reflexivity | lra].
Qed.

Lemma sign_neg (x : R) : x < 0 -> sign x = -1.
Proof.
  intros Hx. unfold sign. destruct (Rlt_dec 0 x) as [H | _]; [lra |].
  destruct (Rlt_dec x 0) as [_ | H]; [reflexivity | lra].
Qed.

Lemma wh_pred_0 : wh_pred 0 = 0.
Proof. unfold wh_pred. rewrite sign_0. ring. Qed.

Lemma eps_pos : 0 < eps.
Proof. unfold eps. lra. Qed.

Lemma wh_pred_pos (v : R) : 0 < v -> wh_pred v = sqrt (v + eps).
Proof.
  intros Hv. pose proof eps_pos.
  unfold wh_pred. rewrite (sign_pos v Hv), Rabs_pos_eq by lra. ring.
Qed.

(** The channel vectors of lines 69-91 at a cell with full slices. *)
Lemma masked_box_wf (g : gated) :
  wf_cell (snd g) ->
  masked_box g =
  [ exists_box (snd (snd g)) *
      (INR (fst g) * ch 6 (fst (snd g)) + (1 - INR (fst g)) * ch 1 (fst (snd g)));
    exists_box (snd (snd g)) *
      (INR (fst g) * ch 7 (fst (snd g)) + (1 - INR (fst g)) * ch 2 (fst (snd g)));
    exists_box (snd (snd g)) *
      (INR (fst g) * ch 8 (fst (snd g)) + (1 - INR (fst g)) * ch 3 (fst (snd g)));
    exists_box (snd (snd g)) *
      (INR (fst g) * ch 9 (fst (snd g)) + (1 - INR (fst g)) * ch 4 (fst (snd g))) ].
Proof.
  destruct g as [b [p t]]. intros [Hp _]. cbn [fst snd] in *.
  expose p Hp. reflexivity.
Qed.

Lemma box_predictions_wf (g : gated) :
  wf_cell (snd g) ->
  box_predictions g =
  [ ch 0 (masked_box g); ch 1 (masked_box g);
    wh_pred (ch 2 (masked_box g)); wh_pred (ch 3 (masked_box g)) ].
Proof.
  intros Hwf. unfold box_predictions. rewrite (masked_box_wf g Hwf).
  reflexivity.
Qed.

Lemma box_targets_wf (g : gated) :
  wf_cell (snd g) ->
  box_targets g =
  [ exists_box (snd (snd g)) * ch 1 (snd (snd g));
    exists_box (snd (snd g)) * ch 2 (snd (snd g));
    sqrt (exists_box (snd (snd g)) * ch 3 (snd (snd g)));
    sqrt (exists_box (snd (snd g)) * ch 4 (snd (snd g))) ].
Proof.
  destruct g as [b [p t]]. intros [_ Ht]. cbn [fst snd] in *.
  expose t Ht. reflexivity.
Qed.

Lemma pred_box_wf (g : gated) :
  wf_cell (snd g) ->
  pred_box g =
  [ INR (fst g) * ch 5 (fst (snd g)) + (1 - INR (fst g)) * ch 0 (fst (snd g)) ].
Proof.
  destruct g as [b [p t]]. intros [Hp _]. cbn [fst snd] in *.
  expose p Hp. reflexivity.
Qed.

Lemma slice_0_1_wf (v : list R) : (1 <= length v)%nat -> slice 0 1 v = [ch 0 v].
Proof. intros H. expose v H. reflexivity. Qed.

Lemma slice_5_6_wf (v : list R) : (6 <= length v)%nat -> slice 5 6 v = [ch 5 v].
Proof. intros H. expose v H. reflexivity. Qed.

Lemma mse_1 (x y : R) : mse [x] [y] = (x - y) * (x - y).
Proof. unfold mse. simpl. ring. Qed.

Lemma mse_4 (x0 x1 x2 x3 y0 y1 y2 y3 : R) :
  mse [x0; x1; x2; x3] [y0; y1; y2; y3]
  = (x0 - y0) * (x0 - y0) + (x1 - y1) * (x1 - y1)
    + (x2 - y2) * (x2 - y2) + (x3 - y3) * (x3 - y3).
Proof. unfold mse. simpl. ring. Qed.

Lemma Rsum_map_plus {A : Type} (f g : A -> R) (l : list A) :
  Rsum (map f l) + Rsum (map g l) = Rsum (map (fun x => f x + g x) l).
Proof.
  induction l as [| x l IH]; simpl; [lra | rewrite <- IH; lra].
Qed.

Lemma Rsum_map_ext {A : Type} (f g : A -> R) (l : list A) :
  Forall (fun x => f x = g x) l -> Rsum (map f l) = Rsum (map g l).
Proof.
  induction 1 as [| x l Hx _ IH]; simpl; [reflexivity | now rewrite Hx, IH].
Qed.

Lemma wf_gated_forall (cells : list cell) :
  Forall wf_cell cells ->
  Forall (fun g : gated => wf_cell (snd g)) (map gate cells).
Proof.
  intros H. rewrite Forall_map. exact H.
Qed.

Lemma box_loss_sum (gs : list gated) :
  Forall (fun g => wf_cell (snd g)) gs ->
  box_loss gs = Rsum (map box_term gs).
Proof.
  intros Hwf. unfold box_loss. apply mse_concat.
  eapply Forall_impl; [| exact Hwf].
  intros g H. cbv beta in *.
  now rewrite (box_predictions_wf g H), (box_targets_wf g H).
Qed.

Lemma wf_cell_slices (c : cell) :
  wf_cell c ->
  slice 0 1 (fst c) = [ch 0 (fst c)] /\
  slice 5 6 (fst c) = [ch 5 (fst c)] /\
  slice 0 1 (snd c) = [ch 0 (snd c)].
Proof.
  intros [Hp Ht].
  rewrite (slice_0_1_wf (fst c)), (slice_5_6_wf (fst c)), (slice_0_1_wf (snd c))
    by lia.
  repeat split.
Qed.

Lemma object_loss_sum (gs : list gated) :
  Forall (fun g => wf_cell (snd g)) gs ->
  object_loss gs = Rsum (map object_term gs).
Proof.
  intros Hwf. unfold object_loss.
  assert (Heach : Forall (fun g : gated =>
            vscale (exists_box (snd (snd g))) (pred_box g)
              = [exists_box (snd (snd g)) *
                 (INR (fst g) * ch 5 (fst (snd g))
                  + (1 - INR (fst g)) * ch 0 (fst (snd g)))]
            /\ vscale (exists_box (snd (snd g))) (slice 0 1 (snd (snd g)))
               = [exists_box (snd (snd g)) * ch 0 (snd (snd g))]) gs).
  { eapply Forall_impl; [| exact Hwf]. intros g H. cbv beta in *.
    rewrite (pred_box_wf g H).
    destruct (wf_cell_slices _ H) as (_ & _ & ->). split; reflexivity. }
  rewrite mse_concat.
  - apply Rsum_map_ext. eapply Forall_impl; [| exact Heach].
    intros g [E1 E2]. cbv beta. rewrite E1, E2, mse_1. reflexivity.
  - eapply Forall_impl; [| exact Heach].
    intros g [E1 E2]. cbv beta. now rewrite E1, E2.
Qed.

Lemma no_object_loss_sum (gs : list gated) :
  Forall (fun g => wf_cell (snd g)) gs ->
  no_object_loss gs = Rsum (map (fun g => no_object_term (snd g)) gs).
Proof.
  intros Hwf. unfold no_object_loss.
  assert (Heach : Forall (fun g : gated =>
            slice 0 1 (fst (snd g)) = [ch 0 (fst (snd g))] /\
            slice 5 6 (fst (snd g)) = [ch 5 (fst (snd g))] /\
            slice 0 1 (snd (snd g)) = [ch 0 (snd (snd g))]) gs).
  { eapply Forall_impl; [| exact Hwf]. intros g H. now apply wf_cell_slices. }
  rewrite !mse_concat.
  - rewrite Rsum_map_plus. apply Rsum_map_ext.
    eapply Forall_impl; [| exact Heach].
    intros g (E1 & E2 & E3). cbv beta. rewrite E1, E2, E3.
    unfold vscale. cbn [map]. rewrite !mse_1. reflexivity.
  - eapply Forall_impl; [| exact Heach].
    intros g (E1 & E2 & E3). cbv beta. now rewrite E2, E3.
  - eapply Forall_impl; [| exact Heach].
    intros g (E1 & E2 & E3). cbv beta. now rewrite E1, E3.
Qed.

End PerCell.

(** ** Cells without an object *)

Section NoObject.

Lemma box_term_masked (g : gated) :
  wf_cell (snd g) -> exists_box (snd (snd g)) = 0 -> box_term g = 0.
Proof.
  intros Hwf He. unfold box_term.
  rewrite (box_predictions_wf g Hwf), (box_targets_wf g Hwf), (masked_box_wf g Hwf).
  unfold exists_box in *. unfold ch in *. cbn [nth].
  rewrite He, !Rmult_0_l, wh_pred_0, sqrt_0, mse_4. ring.
Qed.

Lemma object_term_masked (g : gated) :
  exists_box (snd (snd g)) = 0 -> object_term g = 0.
Proof.
  intros He. unfold object_term. cbv zeta. rewrite He. ring.
Qed.

Lemma gated_targets (cells : list cell) (P : list R -> Prop) :
  Forall P (map snd cells) ->
  Forall (fun g : gated => P (snd (snd g))) (map gate cells).
Proof.
  intros H. rewrite Forall_map in H. rewrite Forall_map. exact H.
Qed.

(** C4: when the target's indicator is zero in every cell, the
    box-coordinate term and the object term are exactly 0, and [forward]
    returns [lambda_noobj * no_object_loss / N]. *)
Theorem forward_no_objects (s b n : nat) (predictions : list (list R))
    (target : tensor4) :
  well_shaped (YoloLoss.init s b) n predictions target ->
  Forall (fun t => ch 0 t = 0) (cells_of target) ->
  exists ts,
    forward_terms (YoloLoss.init s b) predictions target = Ok ts /\
    t_box_loss ts = 0 /\
    t_object_loss ts = 0 /\
    t_batch ts = n /\
    forward (YoloLoss.init s b) predictions target
      = Ok (YoloLoss.lambda_noobj (YoloLoss.init s b) * t_no_object_loss ts / INR n).
Proof.
  intros Hsh Hzero.
  destruct (forward_terms_ok _ n predictions target Hsh)
    as (preds & _ & _ & Hsnd & Hwf & Hts).
  set (cells := combine (cells_of preds) (cells_of target)) in *.
  assert (Hgw : Forall (fun g : gated => wf_cell (snd g)) (map gate cells))
    by now apply wf_gated_forall.
  assert (Hge : Forall (fun g : gated => exists_box (snd (snd g)) = 0)
                       (map gate cells)).
  { apply (gated_targets cells (fun t => exists_box t = 0)). now rewrite Hsnd. }
  assert (Hbox : box_loss (map gate cells) = 0).
  { rewrite (box_loss_sum _ Hgw). apply Rsum_zero. apply Forall_map.
    rewrite Forall_forall in Hgw, Hge. apply Forall_forall. intros g Hg.
    apply box_term_masked; auto. }
  assert (Hobj : object_loss (map gate cells) = 0).
  { rewrite (object_loss_sum _ Hgw). apply Rsum_zero. apply Forall_map.
    eapply Forall_impl; [| exact Hge]. intros g Hg.
    now apply object_term_masked. }
  eexists. split; [exact Hts |]. cbn zeta. cbn [t_box_loss t_object_loss t_batch].
  split; [exact Hbox |]. split; [exact Hobj |]. split; [reflexivity |].
  unfold forward. rewrite Hts. cbn [bind]. f_equal.
  unfold total_loss. cbn [t_box_loss t_object_loss t_no_object_loss t_batch].
  rewrite Hbox, Hobj. unfold Rdiv. ring.
Qed.

Lemma forward_no_objects_witness :
  exists ts,
    forward_terms (YoloLoss.init 1 2) [[3; 0; 0; 2; 2; 1; 0; 0; 1; 1]]
                  [[[[0; 0; 0; 1; 1]]]] = Ok ts /\
    t_box_loss ts = 0 /\
    t_object_loss ts = 0 /\
    t_batch ts = 1%nat /\
    forward (YoloLoss.init 1 2) [[3; 0; 0; 2; 2; 1; 0; 0; 1; 1]]
            [[[[0; 0; 0; 1; 1]]]]
      = Ok (YoloLoss.lambda_noobj (YoloLoss.init 1 2) * t_no_object_loss ts / INR 1).
Proof.
  apply (forward_no_objects 1 2 1).
  - unfold well_shaped. cbn.
    split; [lia |]. split; [lia |]. split; [reflexivity |].
    split; [| reflexivity].
    constructor; [reflexivity | constructor].
  - unfold cells_of. cbn. constructor; [reflexivity | constructor].
Defined.

Lemma Rsum_filter {A : Type} (f : A -> R) (P : A -> bool) (l : list A) :
  Rsum (map f (filter P l)) = Rsum (map (fun x => if P x then f x else 0) l).
Proof.
  induction l as [| x l IH]; simpl; [reflexivity |].
  destruct (P x); simpl; rewrite IH; lra.
Qed.

Lemma no_object_term_valid (c : cell) :
  valid_cell (snd c) ->
  no_object_term c =
  if Req_dec_T (ch 0 (snd c)) 0
  then ch 0 (fst c) * ch 0 (fst c) + ch 5 (fst c) * ch 5 (fst c)
  else 0.
Proof.
  intros [[He | He] _]; unfold no_object_term, exists_box; cbv zeta;
    destruct (Req_dec_T (ch 0 (snd c)) 0) as [Hz | Hz];
    rewrite He in *; try lra; ring.
Qed.

(** C5: for a valid target the no-object loss is the sum, over exactly the
    cells whose indicator is 0, of the squared raw score at channel 0 plus
    the squared raw score at channel 5; [bestbox] does not occur in it. *)
Theorem no_object_loss_meaning (s b n : nat) (predictions : list (list R))
    (target : tensor4) :
  well_shaped (YoloLoss.init s b) n predictions target ->
  valid_target target ->
  exists preds ts,
    reshape s s (b * 5) predictions = Ok preds /\
    map snd (combine (cells_of preds) (cells_of target)) = cells_of target /\
    forward_terms (YoloLoss.init s b) predictions target = Ok ts /\
    t_no_object_loss ts
      = no_object_loss_spec (combine (cells_of preds) (cells_of target)).
Proof.
  intros Hsh Hvalid.
  destruct (forward_terms_ok _ n predictions target Hsh)
    as (preds & Hre & _ & Hsnd & Hwf & Hts).
  set (cells := combine (cells_of preds) (cells_of target)) in *.
  exists preds. eexists.
  split; [exact Hre |]. split; [exact Hsnd |]. split; [exact Hts |].
  cbn zeta. cbn [t_no_object_loss].
  rewrite (no_object_loss_sum _ (wf_gated_forall cells Hwf)).
  unfold no_object_loss_spec. rewrite Rsum_filter, map_map.
  apply Rsum_map_ext.
  assert (Hv : Forall (fun c : cell => valid_cell (snd c)) cells).
  { unfold valid_target in Hvalid. rewrite <- Hsnd, Forall_map in Hvalid.
    exact Hvalid. }
  eapply Forall_impl; [| exact Hv].
  intros c Hc. cbv beta in *. unfold gate. cbn [snd].
  rewrite (no_object_term_valid c Hc).
  now destruct (Req_dec_T (ch 0 (snd c)) 0).
Qed.

Lemma no_object_loss_meaning_witness :
  exists preds ts,
    reshape 1 1 (2 * 5) [[3; 0; 0; 2; 2; 1; 0; 0; 1; 1]] = Ok preds /\
    map snd (combine (cells_of preds) (cells_of [[[[0; 0; 0; 1; 1]]]]))
      = cells_of [[[[0; 0; 0; 1; 1]]]] /\
    forward_terms (YoloLoss.init 1 2) [[3; 0; 0; 2; 2; 1; 0; 0; 1; 1]]
                  [[[[0; 0; 0; 1; 1]]]] = Ok ts /\
    t_no_object_loss ts
      = no_object_loss_spec
          (combine (cells_of preds) (cells_of [[[[0; 0; 0; 1; 1]]]])).
Proof.
  apply (no_object_loss_meaning 1 2 1).
  - unfold well_shaped. cbn.
    split; [lia |]. split; [lia |]. split; [reflexivity |].
    split; [| reflexivity].
    constructor; [reflexivity | constructor].
  - unfold valid_target, valid_cell, cells_of, ch. cbn.
    constructor; [| constructor].
    split; [now left | split; simpl; lra].
Defined.

End NoObject.

(** ** The selected box *)

Section Selection.

Lemma torch_max_tie (i : R) : snd (torch_max [i; i]) = 0%nat.
Proof.
  simpl. destruct (Rlt_dec i i) as [H | _]; [lra | reflexivity].
Qed.


Lemma masked_target_wf (g : gated) :
  wf_cell (snd g) ->
  masked_target g =
  [ exists_box (snd (snd g)) * ch 1 (snd (snd g));
    exists_box (snd (snd g)) * ch 2 (snd (snd g));
    exists_box (snd (snd g)) * ch 3 (snd (snd g));
    exists_box (snd (snd g)) * ch 4 (snd (snd g)) ].
Proof.
  destruct g as [b [p t]]. intros [_ Ht]. cbn [fst snd] in *.
  expose t Ht. reflexivity.
Qed.




End Selection.

(** ** The width/height transform *)

Section WidthHeight.

Lemma wh_pred_spec_nonneg (v : R) : 0 <= v -> wh_pred v = wh_pred_spec v.
Proof.
  intros Hv. pose proof eps_pos. unfold wh_pred, wh_pred_spec.
  rewrite (Rabs_pos_eq (v + eps)), (Rabs_pos_eq v) by lra. reflexivity.
Qed.

Lemma wh_pred_spec_minus_one : wh_pred (-1) <> wh_pred_spec (-1).
Proof.
  unfold wh_pred, wh_pred_spec, eps.
  rewrite (sign_neg (-1)) by lra.
  replace (Rabs (-1 + 1 / 1000000)) with (999999 / 1000000)
    by (rewrite Rabs_left; lra).
  replace (Rabs (-1) + 1 / 1000000) with (1000001 / 1000000)
    by (rewrite Rabs_left; lra).
  intros Heq.
  assert (Hlt : sqrt (999999 / 1000000) < sqrt (1000001 / 1000000))
    by (apply sqrt_lt_1; lra).
  lra.
Qed.

(** C1, as the specification words it, fails on a negative width: the
    prediction [1, 0, 0, -1, -1] twice against the target [1, 0, 0, 1, 1]
    is gated to box 0, its masked width is -1, and the value entering the
    squared difference is not [sign v * sqrt (|v| + eps)]. *)
Lemma wh_transform_counterexample :
  gate_cells (YoloLoss.init 1 2) [[1; 0; 0; -1; -1; 1; 0; 0; -1; -1]]
             [[[[1; 0; 0; 1; 1]]]]
    = Ok (1%nat, [(0%nat, ([1; 0; 0; -1; -1; 1; 0; 0; -1; -1], [1; 0; 0; 1; 1]))])
  /\ ch 2 (masked_box (0%nat, ([1; 0; 0; -1; -1; 1; 0; 0; -1; -1], [1; 0; 0; 1; 1])))
     = -1
  /\ ch 2 (box_predictions
             (0%nat, ([1; 0; 0; -1; -1; 1; 0; 0; -1; -1], [1; 0; 0; 1; 1])))
     <> wh_pred_spec
          (ch 2 (masked_box
                   (0%nat, ([1; 0; 0; -1; -1; 1; 0; 0; -1; -1], [1; 0; 0; 1; 1])))).
Proof.
  assert (Hm : ch 2 (masked_box
                 (0%nat, ([1; 0; 0; -1; -1; 1; 0; 0; -1; -1], [1; 0; 0; 1; 1])))
               = -1).
  { unfold masked_box, vscale, vadd, slice, exists_box, ch. cbn. ring. }
  split; [| split].
  - change (gate_cells (YoloLoss.init 1 2) [[1; 0; 0; -1; -1; 1; 0; 0; -1; -1]]
              [[[[1; 0; 0; 1; 1]]]])
      with (Ok (A := nat * list gated)
              (1%nat, [gate ([1; 0; 0; -1; -1; 1; 0; 0; -1; -1], [1; 0; 0; 1; 1])])).
    unfold gate.
    change (bestbox_of ([1; 0; 0; -1; -1; 1; 0; 0; -1; -1], [1; 0; 0; 1; 1]))
      with (snd (torch_max
                   [iou_b1 ([1; 0; 0; -1; -1; 1; 0; 0; -1; -1], [1; 0; 0; 1; 1]);
                    iou_b1 ([1; 0; 0; -1; -1; 1; 0; 0; -1; -1], [1; 0; 0; 1; 1])])).
    now rewrite torch_max_tie.
  - exact Hm.
  - rewrite box_predictions_wf by (split; simpl; lia).
    change (ch 2 [?a; ?b; ?c; ?d]) with c.
    rewrite Hm. apply wh_pred_spec_minus_one.
Qed.

(** C1 (amended): at every cell with full slices, the squared differences
    of the box-coordinate loss compare [sign v * sqrt (|v + eps|)] of the
    masked selected width and height with the plain [sqrt] of the masked
    target's; the transform of the predictions agrees with
    [sign v * sqrt (|v| + eps)] on non-negative [v]. *)
Theorem wh_transform (g : gated) :
  wf_cell (snd g) ->
  box_term g =
    (ch 0 (masked_box g) - ch 0 (masked_target g)) *
    (ch 0 (masked_box g) - ch 0 (masked_target g)) +
    (ch 1 (masked_box g) - ch 1 (masked_target g)) *
    (ch 1 (masked_box g) - ch 1 (masked_target g)) +
    (sign (ch 2 (masked_box g)) * sqrt (Rabs (ch 2 (masked_box g) + eps))
       - sqrt (ch 2 (masked_target g))) *
    (sign (ch 2 (masked_box g)) * sqrt (Rabs (ch 2 (masked_box g) + eps))
       - sqrt (ch 2 (masked_target g))) +
    (sign (ch 3 (masked_box g)) * sqrt (Rabs (ch 3 (masked_box g) + eps))
       - sqrt (ch 3 (masked_target g))) *
    (sign (ch 3 (masked_box g)) * sqrt (Rabs (ch 3 (masked_box g) + eps))
       - sqrt (ch 3 (masked_target g)))
  /\ (forall v : R,
        0 <= v -> sign v * sqrt (Rabs (v + eps)) = wh_pred_spec v).
Proof.
  intros Hwf. split.
  - unfold box_term.
    rewrite (box_predictions_wf g Hwf), (box_targets_wf g Hwf),
            (masked_target_wf g Hwf), mse_4.
    reflexivity.
  - intros v Hv. now apply wh_pred_spec_nonneg.
Qed.

Lemma wh_transform_witness :
  wf_cell (snd sample_gated) /\
  box_term sample_gated =
    (ch 0 (masked_box sample_gated) - ch 0 (masked_target sample_gated)) *
    (ch 0 (masked_box sample_gated) - ch 0 (masked_target sample_gated)) +
    (ch 1 (masked_box sample_gated) - ch 1 (masked_target sample_gated)) *
    (ch 1 (masked_box sample_gated) - ch 1 (masked_target sample_gated)) +
    (sign (ch 2 (masked_box sample_gated))
       * sqrt (Rabs (ch 2 (masked_box sample_gated) + eps))
       - sqrt (ch 2 (masked_target sample_gated))) *
    (sign (ch 2 (masked_box sample_gated))
       * sqrt (Rabs (ch 2 (masked_box sample_gated) + eps))
       - sqrt (ch 2 (masked_target sample_gated))) +
    (sign (ch 3 (masked_box sample_gated))
       * sqrt (Rabs (ch 3 (masked_box sample_gated) + eps))
       - sqrt (ch 3 (masked_target sample_gated))) *
    (sign (ch 3 (masked_box sample_gated))
       * sqrt (Rabs (ch 3 (masked_box sample_gated) + eps))
       - sqrt (ch 3 (masked_target sample_gated))).
Proof.
  assert (Hwf : wf_cell (snd sample_gated)) by (split; simpl; lia).
  split; [exact Hwf |].
  exact (proj1 (wh_transform sample_gated Hwf)).
Defined.

End WidthHeight.

(** ** Perfect predictions *)

Section Perfect.

Lemma perfect_cell_terms (b : nat) (g : gated) :
  (2 <= b)%nat ->
  (5 <= length (snd (snd g)))%nat ->
  perfect_cell b (snd g) ->
  wf_cell (snd g) /\
  box_term g = wh_gap (snd (snd g)) /\
  object_term g = 0 /\
  no_object_term (snd g) = 0.
Proof.
  destruct g as [k [p t]]. unfold perfect_cell. cbn [fst snd].
  intros Hb Ht Hp. expose t Ht.
  destruct b as [| [| b]]; try lia.
  cbn [repeat concat slice Nat.sub skipn firstn app] in Hp. subst p.
  assert (Hwf : wf_cell (r :: r0 :: r1 :: r2 :: r3 :: r :: r0 :: r1 :: r2 :: r3
                           :: concat (repeat [r; r0; r1; r2; r3] b),
                         r :: r0 :: r1 :: r2 :: r3 :: t))
    by (split; simpl; lia).
  split; [exact Hwf |]. split; [| split].
  - unfold box_term.
    rewrite box_predictions_wf, box_targets_wf, masked_box_wf by exact Hwf.
    unfold wh_gap, exists_box, ch. cbn [fst snd nth]. rewrite mse_4.
    replace (r * (INR k * r2 + (1 - INR k) * r2)) with (r * r2) by ring.
    replace (r * (INR k * r3 + (1 - INR k) * r3)) with (r * r3) by ring.
    ring.
  - unfold object_term, exists_box, ch. cbn [fst snd nth]. ring.
  - unfold no_object_term, exists_box, ch. cbn [fst snd nth]. ring.
Qed.

Lemma wh_gap_nonneg (t : list R) : 0 <= wh_gap t.
Proof.
  unfold wh_gap.
  apply Rplus_le_le_0_compat; apply Rle_0_sqr.
Qed.

Lemma wh_pred_sqrt_zero (v : R) : 0 <= v -> (wh_pred v = sqrt v <-> v = 0).
Proof.
  intros Hv. split.
  - intros Heq. destruct (Rle_lt_or_eq_dec 0 v Hv) as [Hpos | Hz]; [| now symmetry].
    rewrite (wh_pred_pos v Hpos) in Heq.
    pose proof eps_pos. apply sqrt_inj in Heq; lra.
  - intros ->. now rewrite wh_pred_0, sqrt_0.
Qed.

Lemma wh_gap_zero_iff (t : list R) :
  valid_cell t ->
  (wh_gap t = 0 <-> (ch 0 t = 1 -> ch 3 t = 0 /\ ch 4 t = 0)).
Proof.
  intros [He [Hw Hh]]. unfold wh_gap, exists_box.
  destruct He as [He | He]; rewrite He.
  - rewrite !Rmult_0_l, wh_pred_0, sqrt_0. split; [intros _ H; exfalso; lra | intros _; ring].
  - rewrite !Rmult_1_l. split.
    + intros Hgap _.
      destruct (Rplus_sqr_eq_0 _ _ Hgap) as [H3 H4].
      split; apply wh_pred_sqrt_zero; lra.
    + intros H. destruct (H eq_refl) as [-> ->].
      rewrite wh_pred_0, sqrt_0. ring.
Qed.

Lemma Rsum_zero_iff (l : list R) :
  Forall (fun x => 0 <= x) l -> (Rsum l = 0 <-> Forall (fun x => x = 0) l).
Proof.
  intros Hpos. split; [| apply Rsum_zero].
  induction Hpos as [| x l Hx Hl IH]; intros Hsum; constructor;
    simpl in Hsum; pose proof (Rsum_nonneg l Hl).
  - lra.
  - apply IH. lra.
Qed.

(** With predictions that repeat the target in every box, only the
    width/height gap of the coordinate loss is left. *)
Lemma forward_perfect (s b n : nat) (predictions : list (list R))
    (target preds : tensor4) :
  well_shaped (YoloLoss.init s b) n predictions target ->
  reshape s s (b * 5) predictions = Ok preds ->
  Forall (perfect_cell b) (combine (cells_of preds) (cells_of target)) ->
  exists ts,
    forward_terms (YoloLoss.init s b) predictions target = Ok ts /\
    t_object_loss ts = 0 /\
    t_no_object_loss ts = 0 /\
    t_box_loss ts = Rsum (map wh_gap (cells_of target)) /\
    forward (YoloLoss.init s b) predictions target
      = Ok (5 * Rsum (map wh_gap (cells_of target)) / INR n).
Proof.
  intros Hsh Hre Hperfect.
  destruct (forward_terms_ok _ n predictions target Hsh)
    as (preds' & Hre' & _ & Hsnd & Hwf & Hts).
  cbn [YoloLoss.S YoloLoss.B YoloLoss.init] in Hre'.
  rewrite Hre in Hre'. injection Hre' as <-.
  assert (Hb : (2 <= b)%nat) by apply Hsh.
  set (cells := combine (cells_of preds) (cells_of target)) in *.
  assert (Hgw := wf_gated_forall cells Hwf).
  assert (Heach : Forall (fun c : cell =>
            box_term (gate c) = wh_gap (snd c) /\
            object_term (gate c) = 0 /\
            no_object_term c = 0) cells).
  { rewrite Forall_forall in Hwf, Hperfect. apply Forall_forall. intros c Hc.
    apply (perfect_cell_terms b (gate c) Hb);
      [apply (Hwf c Hc) | now apply Hperfect]. }
  assert (Hbox : box_loss (map gate cells) = Rsum (map wh_gap (cells_of target))).
  { rewrite (box_loss_sum _ Hgw), <- Hsnd, !map_map.
    apply Rsum_map_ext. eapply Forall_impl; [| exact Heach]. now intros c [H _]. }
  assert (Hobj : object_loss (map gate cells) = 0).
  { rewrite (object_loss_sum _ Hgw), map_map. apply Rsum_zero.
    rewrite Forall_map. eapply Forall_impl; [| exact Heach]. now intros c (_ & H & _). }
  assert (Hno : no_object_loss (map gate cells) = 0).
  { rewrite (no_object_loss_sum _ Hgw), map_map. apply Rsum_zero.
    rewrite Forall_map. eapply Forall_impl; [| exact Heach]. now intros c (_ & _ & H). }
  eexists. split; [exact Hts |].
  cbn zeta. cbn [t_box_loss t_object_loss t_no_object_loss].
  split; [exact Hobj |]. split; [exact Hno |]. split; [exact Hbox |].
  unfold forward. rewrite Hts. cbn [bind]. f_equal.
  unfold total_loss.
  cbn [t_box_loss t_object_loss t_no_object_loss t_batch
       YoloLoss.lambda_coord YoloLoss.lambda_noobj YoloLoss.init].
  rewrite Hbox, Hobj, Hno. unfold Rdiv. ring.
Qed.

End Perfect.

Section PerfectPrediction.

Lemma Ok_inj {A : Type} (x y : A) : Ok x = Ok y <-> x = y.
Proof. split; [now intros [= ->] | now intros ->]. Qed.

Lemma scaled_sum_zero (x : R) (n : nat) :
  (1 <= n)%nat -> (5 * x / INR n = 0 <-> x = 0).
Proof.
  intros Hn. assert (Hpos : 0 < INR n) by (apply lt_0_INR; lia).
  split.
  - intros H. apply (Rmult_eq_compat_r (INR n)) in H.
    unfold Rdiv in H. rewrite Rmult_assoc, Rinv_l, Rmult_0_l in H by lra. lra.
  - intros ->. unfold Rdiv. ring.
Qed.

(** C2, as the specification words it, fails: one cell holding an object
    of width and height 1, predicted exactly, still has a positive loss,
    because only the prediction's transform adds [eps] under the root. *)
Lemma perfect_prediction_counterexample :
  valid_target [[[[1; 0; 0; 1; 1]]]] /\
  reshape 1 1 (2 * 5) [[1; 0; 0; 1; 1; 1; 0; 0; 1; 1]]
    = Ok [[[[1; 0; 0; 1; 1; 1; 0; 0; 1; 1]]]] /\
  perfect_cell 2 ([1; 0; 0; 1; 1; 1; 0; 0; 1; 1], [1; 0; 0; 1; 1]) /\
  exists v,
    forward (YoloLoss.init 1 2) [[1; 0; 0; 1; 1; 1; 0; 0; 1; 1]]
            [[[[1; 0; 0; 1; 1]]]] = Ok v
    /\ v <> 0.
Proof.
  assert (Hvalid : valid_cell [1; 0; 0; 1; 1]).
  { unfold valid_cell, ch. simpl. split; [now right | split; lra]. }
  split; [| split; [reflexivity | split; [reflexivity |]]].
  { unfold valid_target, cells_of. simpl. constructor; [exact Hvalid | constructor]. }
  assert (Hsh : well_shaped (YoloLoss.init 1 2) 1
                  [[1; 0; 0; 1; 1; 1; 0; 0; 1; 1]] [[[[1; 0; 0; 1; 1]]]]).
  { unfold well_shaped. cbn.
    split; [lia |]. split; [lia |]. split; [reflexivity |].
    split; [| reflexivity].
    constructor; [reflexivity | constructor]. }
  destruct (forward_perfect 1 2 1 _ _ _ Hsh eq_refl) as (ts & _ & _ & _ & _ & Hfw).
  { constructor; [reflexivity | constructor]. }
  eexists. split; [exact Hfw |].
  intros Hzero. apply scaled_sum_zero in Hzero; [| lia].
  unfold cells_of in Hzero. simpl in Hzero.
  assert (Hgap : wh_gap [1; 0; 0; 1; 1] = 0) by lra.
  destruct (proj1 (wh_gap_zero_iff _ Hvalid) Hgap eq_refl) as [H3 _].
  unfold ch in H3. simpl in H3. lra.
Qed.

(** C2 (amended): for a valid target predicted exactly, the object and
    no-object terms vanish and [forward] returns [lambda_coord / N] times
    the summed width/height gap; that is 0 when every cell holding an
    object has width and height 0. *)
Theorem perfect_prediction_loss (s b n : nat) (predictions : list (list R))
    (target preds : tensor4) :
  (1 <= n)%nat ->
  well_shaped (YoloLoss.init s b) n predictions target ->
  valid_target target ->
  reshape s s (b * 5) predictions = Ok preds ->
  Forall (perfect_cell b) (combine (cells_of preds) (cells_of target)) ->
  exists ts,
    forward_terms (YoloLoss.init s b) predictions target = Ok ts /\
    t_object_loss ts = 0 /\
    t_no_object_loss ts = 0 /\
    t_box_loss ts = Rsum (map wh_gap (cells_of target)) /\
    forward (YoloLoss.init s b) predictions target
      = Ok (YoloLoss.lambda_coord (YoloLoss.init s b)
            * Rsum (map wh_gap (cells_of target)) / INR n) /\
    (Forall (fun t => ch 0 t = 1 -> ch 3 t = 0 /\ ch 4 t = 0) (cells_of target) ->
     forward (YoloLoss.init s b) predictions target = Ok 0).
Proof.
  intros Hn Hsh Hvalid Hre Hperfect.
  destruct (forward_perfect s b n predictions target preds Hsh Hre Hperfect)
    as (ts & Hts & Hobj & Hno & Hbox & Hfw).
  cbn [YoloLoss.lambda_coord YoloLoss.init].
  exists ts. repeat (split; [assumption |]).
  intros Hflat.
  rewrite Hfw, Ok_inj, (scaled_sum_zero _ n Hn).
  apply Rsum_zero. rewrite Forall_map. unfold valid_target in Hvalid.
  rewrite !Forall_forall in *. intros t Ht.
  apply (wh_gap_zero_iff t (Hvalid t Ht)). now apply Hflat.
Qed.

Lemma perfect_prediction_loss_witness :
  forward (YoloLoss.init 1 2) [[1; 0; 0; 0; 0; 1; 0; 0; 0; 0]]
          [[[[1; 0; 0; 0; 0]]]] = Ok 0.
Proof.
  assert (Hsh : well_shaped (YoloLoss.init 1 2) 1
                  [[1; 0; 0; 0; 0; 1; 0; 0; 0; 0]] [[[[1; 0; 0; 0; 0]]]]).
  { unfold well_shaped. cbn.
    split; [lia |]. split; [lia |]. split; [reflexivity |].
    split; [| reflexivity].
    constructor; [reflexivity | constructor]. }
  assert (Hvalid : valid_target [[[[1; 0; 0; 0; 0]]]]).
  { unfold valid_target, valid_cell, cells_of, ch. simpl.
    constructor; [| constructor]. split; [now right | split; simpl; lra]. }
  assert (Hperfect : Forall (perfect_cell 2)
            (combine (cells_of [[[[1; 0; 0; 0; 0; 1; 0; 0; 0; 0]]]])
                     (cells_of [[[[1; 0; 0; 0; 0]]]]))).
  { constructor; [reflexivity | constructor]. }
  destruct (perfect_prediction_loss 1 2 1 _ _ _ (le_n 1) Hsh Hvalid eq_refl Hperfect)
    as (ts & _ & _ & _ & _ & _ & Hzero).
  apply Hzero. unfold cells_of, ch. simpl.
  constructor; [| constructor]. intros _. split; reflexivity.
Defined.

End PerfectPrediction.

(** ** Only the first five target channels are read *)

Section TargetChannels.

Lemma slice_0_5_reads (t : list R) :
  exists_box (slice 0 5 t) = exists_box t /\
  slice 1 5 (slice 0 5 t) = slice 1 5 t /\
  slice 0 1 (slice 0 5 t) = slice 0 1 t /\
  (5 <=? length (slice 0 5 t))%nat = (5 <=? length t)%nat.
Proof.
  destruct t as [| t0 [| t1 [| t2 [| t3 [| t4 t]]]]]; repeat split.
Qed.

Lemma forallb_map {A B : Type} (f : B -> bool) (g : A -> B) (l : list A) :
  forallb f (map g l) = forallb (fun x => f (g x)) l.
Proof. induction l as [| x l IH]; simpl; [reflexivity | now rewrite IH]. Qed.

Lemma forallb_ext {A : Type} (f g : A -> bool) (l : list A) :
  (forall x, f x = g x) -> forallb f l = forallb g l.
Proof.
  intros H. induction l as [| x l IH]; simpl; [reflexivity | now rewrite H, IH].
Qed.

Lemma tslice_shape_ok (n s : nat) (t : tensor4) :
  target_shape_ok n s 5 (tslice 0 5 t) = target_shape_ok n s 5 t.
Proof.
  unfold target_shape_ok, tslice. rewrite length_map, forallb_map.
  f_equal. apply forallb_ext. intros img.
  rewrite length_map, forallb_map. f_equal. apply forallb_ext. intros row.
  rewrite length_map, forallb_map. f_equal. apply forallb_ext. intros v.
  apply slice_0_5_reads.
Qed.

Lemma tslice_cells (t : tensor4) :
  cells_of (tslice 0 5 t) = map (slice 0 5) (cells_of t).
Proof.
  unfold cells_of, tslice. now rewrite <- !concat_map.
Qed.

Lemma combine_map_r {A B C : Type} (f : B -> C) (l : list A) (l' : list B) :
  combine l (map f l') = map (fun c => (fst c, f (snd c))) (combine l l').
Proof.
  revert l'. induction l as [| a l IH]; intros [| b l']; simpl;
    try reflexivity. now rewrite IH.
Qed.

Lemma mapM_map {A B C : Type} (f : B -> result C) (g : A -> B) (l : list A) :
  mapM f (map g l) = mapM (fun x => f (g x)) l.
Proof. induction l as [| x l IH]; simpl; [reflexivity | now rewrite IH]. Qed.

Lemma mapM_ext {A B : Type} (f g : A -> result B) (l : list A) :
  (forall x, f x = g x) -> mapM f l = mapM g l.
Proof.
  intros H. induction l as [| x l IH]; simpl; [reflexivity | now rewrite H, IH].
Qed.

Lemma cell_bestbox_cut (c : cell) : cell_bestbox (cut_cell c) = cell_bestbox c.
Proof.
  destruct c as [p t]. unfold cut_cell, cell_bestbox, cell_ious. cbn [fst snd].
  destruct (slice_0_5_reads t) as (_ & -> & _). reflexivity.
Qed.

Lemma combine_cut (bs : list nat) (cells : list cell) :
  combine bs (map cut_cell cells)
  = map cut (combine bs cells).
Proof. apply combine_map_r. Qed.

Lemma cut_reads (g : gated) :
  box_predictions (cut g) = box_predictions g /\
  box_targets (cut g) = box_targets g /\
  pred_box (cut g) = pred_box g /\
  exists_box (snd (snd (cut g))) = exists_box (snd (snd g)) /\
  slice 0 1 (snd (snd (cut g))) = slice 0 1 (snd (snd g)) /\
  fst (snd (cut g)) = fst (snd g).
Proof.
  destruct g as [b [p t]]. unfold cut, cut_cell. cbn [fst snd].
  destruct (slice_0_5_reads t) as (He & H15 & H01 & _).
  unfold box_predictions, box_targets, masked_box, masked_target, pred_box.
  rewrite He, H15, H01. repeat split.
Qed.

Lemma losses_cut (gs : list gated) :
  box_loss (map cut gs) = box_loss gs /\
  object_loss (map cut gs) = object_loss gs /\
  no_object_loss (map cut gs) = no_object_loss gs.
Proof.
  unfold box_loss, object_loss, no_object_loss. rewrite !map_map.
  repeat split;
    repeat first
      [ apply map_ext; intros g;
        destruct (cut_reads g) as (Hbp & Hbt & Hpb & He & H01 & Hp);
        now rewrite ?Hbp, ?Hbt, ?Hpb, ?He, ?H01, ?Hp
      | f_equal ].
Qed.

Lemma gate_cells_tslice (self : YoloLoss.t) (predictions : list (list R))
    (target : tensor4) :
  gate_cells self predictions (tslice 0 5 target)
  = (ng <- gate_cells self predictions target ;;
     Ok (fst ng, map cut (snd ng))).
Proof.
  unfold gate_cells.
  destruct (reshape (YoloLoss.S self) (YoloLoss.S self) (YoloLoss.B self * 5)
                    predictions) as [preds | e]; cbn [bind]; [| reflexivity].
  destruct (negb (10 <=? YoloLoss.B self * 5)%nat); [reflexivity |].
  rewrite tslice_shape_ok.
  destruct (negb (target_shape_ok (length preds) (YoloLoss.S self) 5 target));
    [reflexivity |].
  rewrite tslice_cells.
  change (slice 0 5) with (fun t : list R => slice 0 5 t).
  rewrite (combine_map_r (slice 0 5)).
  change (fun c : cell => (fst c, slice 0 5 (snd c))) with cut_cell.
  rewrite mapM_map, (mapM_ext _ cell_bestbox _ cell_bestbox_cut).
  destruct (mapM cell_bestbox (combine (cells_of preds) (cells_of target)))
    as [bs | e]; cbn [bind fst snd]; [| reflexivity].
  now rewrite combine_cut.
Qed.

Lemma forward_tslice (self : YoloLoss.t) (predictions : list (list R))
    (target : tensor4) :
  forward self predictions (tslice 0 5 target) = forward self predictions target.
Proof.
  unfold forward, forward_terms. rewrite gate_cells_tslice.
  destruct (gate_cells self predictions target) as [[n gs] | e];
    cbn [bind fst snd]; [| reflexivity].
  destruct (losses_cut gs) as (-> & -> & ->). reflexivity.
Qed.

(** C9: two targets that agree on [target[..., 0:5]] give the same result
    for the same predictions; channels 5 and above are never read. *)
Theorem forward_reads_five_channels (self : YoloLoss.t)
    (predictions : list (list R)) (target1 target2 : tensor4) :
  tslice 0 5 target1 = tslice 0 5 target2 ->
  forward self predictions target1 = forward self predictions target2.
Proof.
  intros Hagree.
  rewrite <- (forward_tslice self predictions target1),
          <- (forward_tslice self predictions target2).
  now rewrite Hagree.
Qed.

Lemma forward_reads_five_channels_witness :
  forward (YoloLoss.init 1 2) [[3; 0; 0; 2; 2; 1; 0; 0; 1; 1]]
          [[[[1; 0; 0; 1; 1; 7; 8]]]]
  = forward (YoloLoss.init 1 2) [[3; 0; 0; 2; 2; 1; 0; 0; 1; 1]]
            [[[[1; 0; 0; 1; 1; -4; 9]]]].
Proof.
  apply forward_reads_five_channels. reflexivity.
Defined.

End TargetChannels.

(** * Further properties *)

(** ** Intersection over union: range, symmetry, invariances *)

Section IoUMore.

Import IoU.

Lemma clamp0_le_abs (d w : R) : d <= w -> clamp0 d <= Rabs w.
Proof.
  intros Hdw. unfold clamp0.
  apply Rmax_lub; [| apply Rabs_pos].
  apply Rle_trans with w; [exact Hdw | apply Rle_abs].
Qed.

(** The clamped overlap never exceeds either box's area. *)
Lemma intersection_bounds (c : corners) :
  let dx := Rmin (box1_x2 c) (box2_x2 c) - Rmax (box1_x1 c) (box2_x1 c) in
  let dy := Rmin (box1_y2 c) (box2_y2 c) - Rmax (box1_y1 c) (box2_y1 c) in
  0 <= clamp0 dx * clamp0 dy /\
  clamp0 dx * clamp0 dy
    <= Rabs ((box1_x2 c - box1_x1 c) * (box1_y2 c - box1_y1 c)) /\
  clamp0 dx * clamp0 dy
    <= Rabs ((box2_x2 c - box2_x1 c) * (box2_y2 c - box2_y1 c)).
Proof.
  intros dx dy.
  pose proof (Rmin_l (box1_x2 c) (box2_x2 c)).
  pose proof (Rmin_r (box1_x2 c) (box2_x2 c)).
  pose proof (Rmax_l (box1_x1 c) (box2_x1 c)).
  pose proof (Rmax_r (box1_x1 c) (box2_x1 c)).
  pose proof (Rmin_l (box1_y2 c) (box2_y2 c)).
  pose proof (Rmin_r (box1_y2 c) (box2_y2 c)).
  pose proof (Rmax_l (box1_y1 c) (box2_y1 c)).
  pose proof (Rmax_r (box1_y1 c) (box2_y1 c)).
  pose proof (clamp0_nonneg dx) as Hx. pose proof (clamp0_nonneg dy) as Hy.
  split; [now apply Rmult_le_pos |].
  rewrite !Rabs_mult.
  split; apply Rmult_le_compat; try assumption;
    apply clamp0_le_abs; unfold dx, dy; lra.
Qed.

Lemma iou_of_corners_range (c : corners) :
  0 <= iou_of_corners c <= 1.
Proof.
  unfold iou_of_corners.
  destruct (intersection_bounds c) as (H0 & H1 & H2). cbv zeta in H0, H1, H2.
  set (i := clamp0 _ * clamp0 _) in *.
  set (a1 := Rabs ((box1_x2 c - box1_x1 c) * (box1_y2 c - box1_y1 c))) in *.
  set (a2 := Rabs ((box2_x2 c - box2_x1 c) * (box2_y2 c - box2_y1 c))) in *.
  pose proof eps_pos as He.
  assert (HD : 0 < a1 + a2 - i + eps) by lra.
  split.
  - apply Rmult_le_pos; [exact H0 |]. left. now apply Rinv_0_lt_compat.
  - apply (Rmult_le_reg_r (a1 + a2 - i + eps)); [exact HD |].
    unfold Rdiv. rewrite Rmult_assoc, Rinv_l by lra. lra.
Qed.

(** X1: whenever [intersection_over_union] returns, in either format and
    for any coordinates (reversed or degenerate boxes included), the value
    lies between 0 and 1: the clamped overlap never exceeds either box's
    area, and the [1e-6] keeps the denominator positive. *)
Theorem iou_range (a b : list R) (box_format : string) (v : R) :
  intersection_over_union a b box_format = Ok v -> 0 <= v <= 1.
Proof.
  unfold intersection_over_union.
  destruct (String.eqb box_format "corners");
    [| destruct (String.eqb box_format "midpoint")]; intros [= <-] || discriminate;
    apply iou_of_corners_range.
Qed.

Lemma iou_range_witness :
  0 <= iou_of_corners (midpoint_corners [0; 0; 2; 2] [1; 1; -2; 2]) <= 1.
Proof.
  apply (iou_range [0; 0; 2; 2] [1; 1; -2; 2] "midpoint"). reflexivity.
Defined.

Lemma iou_of_corners_swap (c : corners) :
  iou_of_corners (swap_corners c) = iou_of_corners c.
Proof.
  unfold iou_of_corners, swap_corners. cbn [box1_x1 box1_y1 box1_x2 box1_y2
                                            box2_x1 box2_y1 box2_x2 box2_y2].
  rewrite (Rmax_comm (box2_x1 c)), (Rmax_comm (box2_y1 c)),
          (Rmin_comm (box2_x2 c)), (Rmin_comm (box2_y2 c)).
  f_equal. ring.
Qed.

(** X2: the function is symmetric in its two boxes, for every value of
    [box_format] (an unknown format fails the same way on both sides). *)
Theorem iou_symmetric (a b : list R) (box_format : string) :
  intersection_over_union a b box_format = intersection_over_union b a box_format.
Proof.
  unfold intersection_over_union.
  destruct (String.eqb box_format "corners").
  - f_equal. apply (iou_of_corners_swap (direct_corners b a)).
  - destruct (String.eqb box_format "midpoint"); [| reflexivity].
    f_equal. apply (iou_of_corners_swap (midpoint_corners b a)).
Qed.

(** X3: the two formats agree under conversion, both ways: "midpoint" is
    "corners" applied to the boxes converted to corner form, and "corners"
    is "midpoint" applied to the boxes converted to centre, width and
    height. *)
Theorem iou_format_invariant (a b : list R) :
  intersection_over_union a b "midpoint"
  = intersection_over_union (to_corners a) (to_corners b) "corners"
  /\
  intersection_over_union a b "corners"
  = intersection_over_union (to_midpoint a) (to_midpoint b) "midpoint".
Proof.
  split; [reflexivity |].
  rewrite iou_midpoint, iou_corners. do 2 f_equal.
  unfold midpoint_corners, direct_corners, to_midpoint.
  change (ch 0 [?x; ?y; ?z; ?w]) with x.
  change (ch 1 [?x; ?y; ?z; ?w]) with y.
  change (ch 2 [?x; ?y; ?z; ?w]) with z.
  change (ch 3 [?x; ?y; ?z; ?w]) with w.
  f_equal; field.
Qed.

(** X4: a midpoint box of non-negative width [w] and height [h] compared
    with itself gives [w*h / (w*h + 1e-6)], which is 0 (not a division by
    zero) for a box of zero area. *)
Theorem iou_self (a : list R) :
  0 <= ch 2 a -> 0 <= ch 3 a ->
  intersection_over_union a a "midpoint"
  = Ok (ch 2 a * ch 3 a / (ch 2 a * ch 3 a + eps)).
Proof.
  intros Hw Hh. rewrite iou_midpoint. f_equal.
  unfold iou_of_corners, midpoint_corners.
  cbn [box1_x1 box1_y1 box1_x2 box1_y2 box2_x1 box2_y1 box2_x2 box2_y2].
  set (w := ch 2 a) in *. set (h := ch 3 a) in *.
  rewrite !Rmax_left, !Rmin_left by lra.
  replace (ch 0 a + w / 2 - (ch 0 a - w / 2)) with w by field.
  replace (ch 1 a + h / 2 - (ch 1 a - h / 2)) with h by field.
  unfold clamp0. rewrite !Rmax_left by lra.
  rewrite (Rabs_pos_eq (w * h)) by now apply Rmult_le_pos.
  f_equal. ring.
Qed.

Lemma iou_self_witness :
  intersection_over_union [0; 0; 2; 2] [0; 0; 2; 2] "midpoint"
  = Ok (ch 2 [0; 0; 2; 2] * ch 3 [0; 0; 2; 2]
        / (ch 2 [0; 0; 2; 2] * ch 3 [0; 0; 2; 2] + eps)).
Proof.
  apply iou_self; unfold ch; simpl; lra.
Defined.

(** X5: a midpoint box with a negative width or height, on either side,
    overlaps nothing: the result is exactly 0. *)
Theorem iou_negative_size (a b : list R) :
  ch 2 a < 0 \/ ch 3 a < 0 \/ ch 2 b < 0 \/ ch 3 b < 0 ->
  intersection_over_union a b "midpoint" = Ok 0.
Proof.
  intros Hneg. rewrite iou_midpoint. f_equal.
  unfold iou_of_corners, midpoint_corners.
  cbn [box1_x1 box1_y1 box1_x2 box1_y2 box2_x1 box2_y1 box2_x2 box2_y2].
  set (dx := Rmin _ _ - Rmax _ _).
  set (dy := Rmin (ch 1 a + _) _ - Rmax _ _).
  assert (Hzero : clamp0 dx * clamp0 dy = 0).
  { assert (Hxy : dx <= 0 \/ dy <= 0).
    { unfold dx, dy.
      pose proof (Rmin_l (ch 0 a + ch 2 a / 2) (ch 0 b + ch 2 b / 2)).
      pose proof (Rmin_r (ch 0 a + ch 2 a / 2) (ch 0 b + ch 2 b / 2)).
      pose proof (Rmax_l (ch 0 a - ch 2 a / 2) (ch 0 b - ch 2 b / 2)).
      pose proof (Rmax_r (ch 0 a - ch 2 a / 2) (ch 0 b - ch 2 b / 2)).
      pose proof (Rmin_l (ch 1 a + ch 3 a / 2) (ch 1 b + ch 3 b / 2)).
      pose proof (Rmin_r (ch 1 a + ch 3 a / 2) (ch 1 b + ch 3 b / 2)).
      pose proof (Rmax_l (ch 1 a - ch 3 a / 2) (ch 1 b - ch 3 b / 2)).
      pose proof (Rmax_r (ch 1 a - ch 3 a / 2) (ch 1 b - ch 3 b / 2)).
      destruct Hneg as [Hn | [Hn | [Hn | Hn]]]; [left | right | left | right]; lra. }
    destruct Hxy as [Hx | Hy].
    - rewrite (clamp0_of_nonpos dx Hx). ring.
    - rewrite (clamp0_of_nonpos dy Hy). ring. }
  rewrite Hzero. unfold Rdiv. ring.
Qed.

Lemma iou_negative_size_witness :
  intersection_over_union [0; 0; -2; 2] [0; 0; 4; 4] "midpoint" = Ok 0.
Proof.
  apply iou_negative_size. left. unfold ch. simpl. lra.
Defined.

Lemma Rmax_shift (a b d : R) : Rmax (a + d) (b + d) = Rmax a b + d.
Proof.
  unfold Rmax. destruct (Rle_dec (a + d) (b + d)), (Rle_dec a b); lra.
Qed.

Lemma Rmin_shift (a b d : R) : Rmin (a + d) (b + d) = Rmin a b + d.
Proof.
  unfold Rmin. destruct (Rle_dec (a + d) (b + d)), (Rle_dec a b); lra.
Qed.

Lemma iou_of_corners_shift (dx dy : R) (c : corners) :
  iou_of_corners (shift_corners dx dy c) = iou_of_corners c.
Proof.
  unfold iou_of_corners, shift_corners.
  cbn [box1_x1 box1_y1 box1_x2 box1_y2 box2_x1 box2_y1 box2_x2 box2_y2].
  rewrite !Rmax_shift, !Rmin_shift.
  replace (Rmin (box1_x2 c) (box2_x2 c) + dx - (Rmax (box1_x1 c) (box2_x1 c) + dx))
    with (Rmin (box1_x2 c) (box2_x2 c) - Rmax (box1_x1 c) (box2_x1 c)) by ring.
  replace (Rmin (box1_y2 c) (box2_y2 c) + dy - (Rmax (box1_y1 c) (box2_y1 c) + dy))
    with (Rmin (box1_y2 c) (box2_y2 c) - Rmax (box1_y1 c) (box2_y1 c)) by ring.
  replace (box1_x2 c + dx - (box1_x1 c + dx)) with (box1_x2 c - box1_x1 c) by ring.
  replace (box1_y2 c + dy - (box1_y1 c + dy)) with (box1_y2 c - box1_y1 c) by ring.
  replace (box2_x2 c + dx - (box2_x1 c + dx)) with (box2_x2 c - box2_x1 c) by ring.
  replace (box2_y2 c + dy - (box2_y1 c + dy)) with (box2_y2 c - box2_y1 c) by ring.
  reflexivity.
Qed.

(** X6: moving both midpoint boxes by the same offset does not change the
    result. *)
Theorem iou_translation_invariant (dx dy : R) (a b : list R) :
  intersection_over_union (shift_box dx dy a) (shift_box dx dy b) "midpoint"
  = intersection_over_union a b "midpoint".
Proof.
  rewrite !iou_midpoint. f_equal.
  rewrite <- (iou_of_corners_shift dx dy (midpoint_corners a b)).
  f_equal. unfold midpoint_corners, shift_corners, shift_box.
  cbn [box1_x1 box1_y1 box1_x2 box1_y2 box2_x1 box2_y1 box2_x2 box2_y2].
  unfold ch. cbn [nth]. f_equal; ring.
Qed.

End IoUMore.

(** ** The responsible predictor *)

Section Responsible.

Lemma bestbox_of_cases (c : cell) :
  (iou_b1 c < iou_b2 c /\ bestbox_of c = 1%nat) \/
  (iou_b2 c <= iou_b1 c /\ bestbox_of c = 0%nat).
Proof.
  unfold bestbox_of. simpl.
  destruct (Rlt_dec (iou_b1 c) (iou_b2 c)) as [Hlt | Hge].
  - left. now split.
  - right. split; [lra | reflexivity].
Qed.




Lemma gate_bestbox_le_1 (cells : list cell) :
  Forall (fun g : gated => (fst g <= 1)%nat) (map gate cells).
Proof.
  rewrite Forall_map. apply Forall_forall. intros c _. unfold gate. cbn [fst].
  destruct (bestbox_of_cases c) as [[_ ->] | [_ ->]]; lia.
Qed.

End Responsible.

(** ** The three sums on a valid target *)

(** Normalises the arguments of the two transforms in the goal. *)
Ltac tidy_roots :=
  repeat match goal with
         | |- context [wh_pred ?x] => progress ring_simplify x
         | |- context [sqrt ?x] => progress ring_simplify x
         end.

Section ValidTarget.

Lemma no_object_term_object (c : cell) :
  exists_box (snd c) = 1 -> no_object_term c = 0.
Proof.
  intros He. unfold no_object_term. cbv zeta. rewrite He. ring.
Qed.

Lemma holds_object_valid (g : gated) :
  valid_cell (snd (snd g)) ->
  (holds_object g = true /\ exists_box (snd (snd g)) = 1) \/
  (holds_object g = false /\ exists_box (snd (snd g)) = 0).
Proof.
  intros [[He | He] _]; unfold holds_object, exists_box;
    destruct (Req_dec_T (ch 0 (snd (snd g))) 1) as [H1 | H1].
  - exfalso. lra.
  - right. now split.
  - left. now split.
  - contradiction.
Qed.

Lemma object_term_valid (g : gated) :
  (fst g <= 1)%nat -> valid_cell (snd (snd g)) ->
  object_term g
  = if holds_object g then (selected 0 g - 1) * (selected 0 g - 1) else 0.
Proof.
  intros Hb Hv.
  destruct (holds_object_valid g Hv) as [[-> He] | [-> He]].
  - unfold object_term, selected. cbv zeta. unfold exists_box in He.
    fold (exists_box (snd (snd g))) in He. rewrite He.
    replace (ch 0 (snd (snd g))) with 1 by (symmetry; exact He).
    destruct g as [[| [| b]] [p t]]; cbn [fst snd] in *; try lia;
      cbn [Nat.mul Nat.add INR]; ring.
  - now apply object_term_masked.
Qed.

Lemma box_term_valid (g : gated) :
  wf_cell (snd g) -> (fst g <= 1)%nat -> valid_cell (snd (snd g)) ->
  box_term g
  = if holds_object g
    then (selected 1 g - ch 1 (snd (snd g))) * (selected 1 g - ch 1 (snd (snd g)))
         + (selected 2 g - ch 2 (snd (snd g))) * (selected 2 g - ch 2 (snd (snd g)))
         + (wh_pred (selected 3 g) - sqrt (ch 3 (snd (snd g))))
           * (wh_pred (selected 3 g) - sqrt (ch 3 (snd (snd g))))
         + (wh_pred (selected 4 g) - sqrt (ch 4 (snd (snd g))))
           * (wh_pred (selected 4 g) - sqrt (ch 4 (snd (snd g))))
    else 0.
Proof.
  intros Hwf Hb Hv.
  destruct (holds_object_valid g Hv) as [[-> He] | [-> He]].
  - unfold box_term.
    rewrite (box_predictions_wf g Hwf), (box_targets_wf g Hwf),
            (masked_box_wf g Hwf), mse_4.
    change (ch 0 [?a; ?b; ?c; ?d]) with a.
    change (ch 1 [?a; ?b; ?c; ?d]) with b.
    change (ch 2 [?a; ?b; ?c; ?d]) with c.
    change (ch 3 [?a; ?b; ?c; ?d]) with d.
    unfold selected. rewrite He.
    destruct g as [[| [| b]] [p t]]; cbn [fst snd] in *; try lia;
      cbn [Nat.mul Nat.add INR]; tidy_roots; ring.
  - now apply box_term_masked.
Qed.


Lemma gated_valid (cells : list cell) :
  Forall valid_cell (map snd cells) ->
  Forall (fun g : gated => valid_cell (snd (snd g))) (map gate cells).
Proof. apply (gated_targets cells valid_cell). Qed.





Lemma all_objects_no_object_loss (cells : list cell) :
  Forall wf_cell cells ->
  Forall (fun t => ch 0 t = 1) (map snd cells) ->
  no_object_loss (map gate cells) = 0.
Proof.
  intros Hwf Hones.
  rewrite (no_object_loss_sum _ (wf_gated_forall cells Hwf)), map_map.
  apply Rsum_zero. rewrite Forall_map. rewrite Forall_map in Hones.
  eapply Forall_impl; [| exact Hones].
  intros c Hc. unfold gate. cbn [snd]. now apply no_object_term_object.
Qed.

(** X10: when the target's indicator is 1 in every cell, as in the
    module's self-test, the no-object loss is exactly 0 and [forward]
    returns [(lambda_coord * box_loss + object_loss) / N]. *)
Theorem forward_all_objects (self : YoloLoss.t) (n : nat)
    (predictions : list (list R)) (target : tensor4) :
  well_shaped self n predictions target ->
  Forall (fun t => ch 0 t = 1) (cells_of target) ->
  exists ts,
    forward_terms self predictions target = Ok ts /\
    t_no_object_loss ts = 0 /\
    forward self predictions target
      = Ok ((YoloLoss.lambda_coord self * t_box_loss ts + t_object_loss ts)
            / INR n).
Proof.
  intros Hsh Hones.
  destruct (forward_terms_ok _ n predictions target Hsh)
    as (preds & _ & _ & Hsnd & Hwf & Hts).
  set (cells := combine (cells_of preds) (cells_of target)) in *.
  assert (Hno : no_object_loss (map gate cells) = 0).
  { apply all_objects_no_object_loss; [exact Hwf | now rewrite Hsnd]. }
  eexists. split; [exact Hts |]. cbn zeta.
  cbn [t_box_loss t_object_loss t_no_object_loss].
  split; [exact Hno |].
  unfold forward. rewrite Hts. cbn [bind]. f_equal.
  unfold total_loss. cbn [t_box_loss t_object_loss t_no_object_loss t_batch].
  rewrite Hno. unfold Rdiv. ring.
Qed.

Lemma forward_all_objects_witness :
  exists ts,
    forward_terms (YoloLoss.init 1 2) [[3; 0; 0; 2; 2; 1; 0; 0; 1; 1]]
                  [[[[1; 0; 0; 1; 1]]]] = Ok ts /\
    t_no_object_loss ts = 0 /\
    forward (YoloLoss.init 1 2) [[3; 0; 0; 2; 2; 1; 0; 0; 1; 1]]
            [[[[1; 0; 0; 1; 1]]]]
      = Ok ((YoloLoss.lambda_coord (YoloLoss.init 1 2) * t_box_loss ts
             + t_object_loss ts) / INR 1).
Proof.
  apply (forward_all_objects (YoloLoss.init 1 2) 1).
  - unfold well_shaped. cbn.
    split; [lia |]. split; [lia |]. split; [reflexivity |].
    split; [| reflexivity].
    constructor; [reflexivity | constructor].
  - unfold cells_of. cbn. constructor; [reflexivity | constructor].
Defined.

End ValidTarget.

(** ** Failures of [forward] *)

Section Failures.

Lemma reshape_fails_with_shape_error (d1 d2 d3 : nat) (x : list (list R)) (e : error) :
  reshape d1 d2 d3 x = Err e -> e = ShapeError.
Proof.
  unfold reshape.
  destruct ((d1 * d2 * d3)%nat =? 0)%nat; [now intros [= <-] |].
  destruct (negb _); [now intros [= <-] | discriminate].
Qed.

(** X11: [forward] has one way to fail, a shape mismatch; the overlap
    computations inside always name a known box format, so an unbound
    local never escapes from it. *)
Theorem forward_fails_only_on_shape (self : YoloLoss.t)
    (predictions : list (list R)) (target : tensor4) :
  forward self predictions target = Err ShapeError \/
  exists v, forward self predictions target = Ok v.
Proof.
  unfold forward, forward_terms, gate_cells.
  destruct (reshape (YoloLoss.S self) (YoloLoss.S self) (YoloLoss.B self * 5)
                    predictions) as [preds | e] eqn:Hre; cbn [bind].
  - destruct (negb (10 <=? YoloLoss.B self * 5)%nat); [now left |].
    destruct (negb (target_shape_ok (length preds) (YoloLoss.S self) 5 target));
      [now left |].
    rewrite (mapM_pure cell_bestbox bestbox_of _ cell_bestbox_pure). cbn [bind].
    right. eexists. reflexivity.
  - left. now rewrite (reshape_fails_with_shape_error _ _ _ _ _ Hre).
Qed.

End Failures.

(** ** [reshape] keeps the entries in order *)

Section ReshapeOrder.

Lemma concat_chunks {A : Type} (k n : nat) (l : list A) :
  length l = (n * k)%nat -> concat (chunks k n l) = l.
Proof.
  revert l. induction n as [| n IH]; intros l Hl; simpl in *.
  - now destruct l.
  - rewrite IH by (rewrite length_skipn; lia). apply firstn_skipn.
Qed.

Lemma concat_join {A : Type} (ls : list (list (list A))) :
  concat (concat ls) = concat (map (@concat A) ls).
Proof.
  induction ls as [| l ls IH]; simpl; [reflexivity |].
  now rewrite concat_app, IH.
Qed.

Lemma map_id_on {A : Type} (f : A -> A) (l : list A) :
  Forall (fun x => f x = x) l -> map f l = l.
Proof.
  induction 1 as [| x l Hx _ IH]; simpl; [reflexivity | now rewrite Hx, IH].
Qed.

Lemma reshape_explicit (d1 d2 d3 n : nat) (x : list (list R)) :
  (d1 * d2 * d3)%nat <> O ->
  length (concat x) = (n * (d1 * d2 * d3))%nat ->
  reshape d1 d2 d3 x
  = Ok (map (fun img => map (chunks d3 d2) (chunks (d2 * d3) d1 img))
            (chunks (d1 * d2 * d3) n (concat x))).
Proof.
  intros Hm Hlen. unfold reshape.
  apply Nat.eqb_neq in Hm as Hm'. rewrite Hm'.
  rewrite Hlen, Nat.Div0.mod_mul, Nat.div_mul by exact Hm. reflexivity.
Qed.

Lemma reshape_inversion (d1 d2 d3 : nat) (x : list (list R)) (preds : tensor4) :
  reshape d1 d2 d3 x = Ok preds ->
  (d1 * d2 * d3)%nat <> O /\
  length (concat x)
  = (length (concat x) / (d1 * d2 * d3) * (d1 * d2 * d3))%nat.
Proof.
  unfold reshape.
  destruct ((d1 * d2 * d3)%nat =? 0)%nat eqn:Hm; [discriminate |].
  destruct (length (concat x) mod (d1 * d2 * d3) =? 0)%nat eqn:Hmod;
    [| discriminate].
  intros _. apply Nat.eqb_neq in Hm. apply Nat.eqb_eq in Hmod.
  split; [exact Hm |].
  apply Nat.Div0.div_exact in Hmod. lia.
Qed.

(** X13: a successful [reshape(-1, d1, d2, d3)] yields a dense tensor of
    [total / (d1*d2*d3)] images whose entries, read back in row-major
    order, are the input's entries in their original order: the batch
    size is recomputed from the entry count, nothing is dropped or
    reordered. *)
Theorem reshape_round_trip (d1 d2 d3 : nat) (x : list (list R)) (preds : tensor4) :
  reshape d1 d2 d3 x = Ok preds ->
  tensor_shape (length (concat x) / (d1 * d2 * d3)) d1 d2 d3 preds /\
  concat (cells_of preds) = concat x.
Proof.
  intros Hre. destruct (reshape_inversion _ _ _ _ _ Hre) as [Hm Hlen].
  set (n := (length (concat x) / (d1 * d2 * d3))%nat) in *.
  destruct (reshape_ok d1 d2 d3 n x Hm Hlen) as (preds' & Hre' & Hsh).
  rewrite Hre in Hre'. injection Hre' as <-.
  split; [exact Hsh |].
  rewrite (reshape_explicit d1 d2 d3 n x Hm Hlen) in Hre. injection Hre as <-.
  unfold cells_of.
  rewrite concat_join, concat_map, concat_join, !map_map.
  transitivity (concat (chunks (d1 * d2 * d3) n (concat x)));
    [| now apply concat_chunks].
  f_equal. apply map_id_on.
  eapply Forall_impl; [| apply (chunks_widths _ n); exact Hlen].
  intros img Himg. cbv beta.
  rewrite map_map.
  transitivity (concat (chunks (d2 * d3) d1 img));
    [| apply concat_chunks; rewrite Himg; lia].
  f_equal. apply map_id_on.
  eapply Forall_impl; [| apply (chunks_widths (d2 * d3) d1); rewrite Himg; lia].
  intros row Hrow. cbv beta. apply concat_chunks. rewrite Hrow. lia.
Qed.

Lemma reshape_round_trip_witness :
  tensor_shape (length (concat [[1; 2; 3; 4; 5; 6; 7; 8]]) / (1 * 2 * 2)) 1 2 2
               [[[[1; 2]; [3; 4]]]; [[[5; 6]; [7; 8]]]] /\
  concat (cells_of [[[[1; 2]; [3; 4]]]; [[[5; 6]; [7; 8]]]])
  = concat [[1; 2; 3; 4; 5; 6; 7; 8]].
Proof.
  apply (reshape_round_trip 1 2 2 [[1; 2; 3; 4; 5; 6; 7; 8]]). reflexivity.
Defined.

End ReshapeOrder.

(** ** Batches *)

Section Batches.

Lemma chunks_app {A : Type} (k n1 n2 : nat) (l1 l2 : list A) :
  length l1 = (n1 * k)%nat ->
  chunks k (n1 + n2) (l1 ++ l2) = chunks k n1 l1 ++ chunks k n2 l2.
Proof.
  revert l1. induction n1 as [| n1 IH]; intros l1 Hl; simpl in *.
  - now destruct l1.
  - assert (Hk : (k <= length l1)%nat) by lia.
    rewrite firstn_app, skipn_app.
    replace (k - length l1)%nat with O by lia.
    cbn [firstn skipn]. rewrite app_nil_r.
    f_equal. apply IH. rewrite length_skipn. lia.
Qed.

Lemma combine_app {A B : Type} (a1 a2 : list A) (b1 b2 : list B) :
  length a1 = length b1 ->
  combine (a1 ++ a2) (b1 ++ b2) = combine a1 b1 ++ combine a2 b2.
Proof.
  revert b1. induction a1 as [| x a1 IH]; intros [| y b1] H; simpl in *;
    try discriminate; [reflexivity |].
  f_equal. apply IH. lia.
Qed.

Lemma cells_of_app (t1 t2 : tensor4) :
  cells_of (t1 ++ t2) = cells_of t1 ++ cells_of t2.
Proof. unfold cells_of. now rewrite !concat_app. Qed.

Lemma well_shaped_app (self : YoloLoss.t) (n1 n2 : nat)
    (p1 p2 : list (list R)) (t1 t2 : tensor4) :
  well_shaped self n1 p1 t1 -> well_shaped self n2 p2 t2 ->
  well_shaped self (n1 + n2) (p1 ++ p2) (t1 ++ t2).
Proof.
  intros (HS & HB & Hn1 & Hr1 & Ht1) (_ & _ & Hn2 & Hr2 & Ht2).
  split; [exact HS |]. split; [exact HB |].
  split; [rewrite length_app; lia |].
  split; [apply Forall_app; now split |].
  unfold target_shape_ok in *.
  apply andb_true_iff in Ht1 as [Hl1 Hf1]. apply andb_true_iff in Ht2 as [Hl2 Hf2].
  apply Nat.eqb_eq in Hl1. apply Nat.eqb_eq in Hl2.
  apply andb_true_iff. split.
  - apply Nat.eqb_eq. rewrite length_app. lia.
  - rewrite forallb_app. now rewrite Hf1, Hf2.
Qed.

(** What [forward] returns on well-shaped inputs, with the reshaped
    predictions written out. *)
Lemma forward_explicit (self : YoloLoss.t) (n : nat)
    (predictions : list (list R)) (target : tensor4) :
  well_shaped self n predictions target ->
  let s := YoloLoss.S self in
  let c := (YoloLoss.B self * 5)%nat in
  let preds := map (fun img => map (chunks c s) (chunks (s * c) s img))
                   (chunks (s * s * c) n (concat predictions)) in
  let cells := combine (cells_of preds) (cells_of target) in
  length (cells_of preds) = length (cells_of target) /\
  Forall wf_cell cells /\
  forward self predictions target
  = Ok ((YoloLoss.lambda_coord self * Rsum (map box_term (map gate cells))
         + Rsum (map object_term (map gate cells))
         + YoloLoss.lambda_noobj self
           * Rsum (map (fun g : gated => no_object_term (snd g)) (map gate cells)))
        / INR n).
Proof.
  intros Hsh. cbv zeta.
  destruct (forward_terms_ok self n predictions target Hsh)
    as (preds' & Hre & _ & _ & Hwf & Hts).
  destruct (gate_cells_ok self n predictions target Hsh)
    as (preds'' & Hre'' & _ & Hfst & Hsnd & _ & _).
  rewrite Hre in Hre''. injection Hre'' as <-.
  destruct Hsh as (HS & HB & Hn & Hrows & _).
  set (s := YoloLoss.S self) in *. set (c := (YoloLoss.B self * 5)%nat) in *.
  assert (Hm : (s * s * c)%nat <> O) by (unfold s, c; nia).
  assert (Hflat : length (concat predictions) = (n * (s * s * c))%nat).
  { rewrite (concat_uniform_length _ _ Hrows), Hn. reflexivity. }
  rewrite (reshape_explicit s s c n predictions Hm Hflat) in Hre.
  injection Hre as <-.
  set (cells := combine _ (cells_of target)) in *.
  split.
  - pose proof (f_equal (@length _) Hfst) as E1.
    pose proof (f_equal (@length _) Hsnd) as E2.
    rewrite length_map in E1, E2. congruence.
  - split; [exact Hwf |].
    unfold forward. rewrite Hts. cbn [bind]. f_equal.
    unfold total_loss. cbn zeta.
    cbn [t_box_loss t_object_loss t_no_object_loss t_batch].
    pose proof (wf_gated_forall cells Hwf) as Hgw.
    now rewrite (box_loss_sum _ Hgw), (object_loss_sum _ Hgw),
                (no_object_loss_sum _ Hgw).
Qed.

(** X14: the loss is a mean over the batch.  For two well-shaped batches
    of N1 >= 1 and N2 >= 1 images, the loss of their concatenation times
    N1 + N2 is the first loss times N1 plus the second times N2. *)
Theorem forward_batch_concat (self : YoloLoss.t) (n1 n2 : nat)
    (p1 p2 : list (list R)) (t1 t2 : tensor4) :
  (1 <= n1)%nat -> (1 <= n2)%nat ->
  well_shaped self n1 p1 t1 -> well_shaped self n2 p2 t2 ->
  exists v1 v2 v,
    forward self p1 t1 = Ok v1 /\
    forward self p2 t2 = Ok v2 /\
    forward self (p1 ++ p2) (t1 ++ t2) = Ok v /\
    v * INR (n1 + n2) = v1 * INR n1 + v2 * INR n2.
Proof.
  intros Hn1 Hn2 Hsh1 Hsh2.
  pose proof (well_shaped_app self n1 n2 p1 p2 t1 t2 Hsh1 Hsh2) as Hsh.
  destruct (forward_explicit self n1 p1 t1 Hsh1) as (Hlen1 & _ & Hf1).
  destruct (forward_explicit self n2 p2 t2 Hsh2) as (_ & _ & Hf2).
  destruct (forward_explicit self (n1 + n2) (p1 ++ p2) (t1 ++ t2) Hsh)
    as (_ & _ & Hf).
  cbv zeta in *.
  set (s := YoloLoss.S self) in *. set (c := (YoloLoss.B self * 5)%nat) in *.
  assert (Hflat1 : length (concat p1) = (n1 * (s * s * c))%nat).
  { destruct Hsh1 as (_ & _ & Hn & Hrows & _).
    rewrite (concat_uniform_length _ _ Hrows), Hn. reflexivity. }
  rewrite concat_app, (chunks_app _ n1 n2 _ _ Hflat1), map_app in Hf.
  rewrite !cells_of_app, (combine_app _ _ _ _ Hlen1), !map_app, !Rsum_app in Hf.
  do 3 eexists. split; [exact Hf1 |]. split; [exact Hf2 |]. split; [exact Hf |].
  rewrite plus_INR.
  assert (H1 : INR n1 <> 0) by (apply not_0_INR; lia).
  assert (H2 : INR n2 <> 0) by (apply not_0_INR; lia).
  assert (H12 : INR n1 + INR n2 <> 0).
  { pose proof (lt_0_INR n1 ltac:(lia)). pose proof (lt_0_INR n2 ltac:(lia)). lra. }
  field. repeat split; assumption.
Qed.

Lemma forward_batch_concat_witness :
  exists v1 v2 v,
    forward (YoloLoss.init 1 2) [[3; 0; 0; 2; 2; 1; 0; 0; 1; 1]]
            [[[[1; 0; 0; 1; 1]]]] = Ok v1 /\
    forward (YoloLoss.init 1 2) [[1; 5; 5; 1; 1; 2; 0; 0; 3; 3]]
            [[[[0; 0; 0; 0; 0]]]] = Ok v2 /\
    forward (YoloLoss.init 1 2)
            ([[3; 0; 0; 2; 2; 1; 0; 0; 1; 1]] ++ [[1; 5; 5; 1; 1; 2; 0; 0; 3; 3]])
            ([[[[1; 0; 0; 1; 1]]]] ++ [[[[0; 0; 0; 0; 0]]]]) = Ok v /\
    v * INR (1 + 1) = v1 * INR 1 + v2 * INR 1.
Proof.
  apply (forward_batch_concat (YoloLoss.init 1 2) 1 1); try lia.
  - unfold well_shaped. cbn.
    split; [lia |]. split; [lia |]. split; [reflexivity |].
    split; [| reflexivity].
    constructor; [reflexivity | constructor].
  - unfold well_shaped. cbn.
    split; [lia |]. split; [lia |]. split; [reflexivity |].
    split; [| reflexivity].
    constructor; [reflexivity | constructor].
Defined.

End Batches.

(** ** The self-test for any grid size and box count *)

Section SelfTest.

Lemma torch_ones_indicator (n s1 s2 c : nat) :
  (1 <= c)%nat -> Forall (fun t => ch 0 t = 1) (cells_of (torch_ones n s1 s2 c)).
Proof.
  intros Hc. unfold cells_of, torch_ones.
  apply Forall_concat, Forall_concat.
  apply Forall_forall. intros img Himg. apply repeat_spec in Himg. subst img.
  apply Forall_forall. intros row Hrow. apply repeat_spec in Hrow. subst row.
  apply Forall_forall. intros v Hv. apply repeat_spec in Hv. subst v.
  destruct c as [| c]; [lia | reflexivity].
Qed.

(** X15: [test(S, B)] runs for every grid size S >= 1 and box count
    B >= 2: predictions of shape (13, S*S*5*B) against the all-ones target
    of shape (13, S, S, 5*B) give a non-negative loss, with a no-object
    part of exactly 0 because every cell is marked as holding an object. *)
Theorem test_runs (s b : nat) (predictions : list (list R)) :
  (1 <= s)%nat -> (2 <= b)%nat ->
  length predictions = 13%nat ->
  Forall (fun row => length row = (s * s * (5 * b))%nat) predictions ->
  exists ts v,
    forward_terms (YoloLoss.init s b) predictions (torch_ones 13 s s (5 * b))
      = Ok ts /\
    t_no_object_loss ts = 0 /\
    forward (YoloLoss.init s b) predictions (torch_ones 13 s s (5 * b)) = Ok v /\
    0 <= v.
Proof.
  intros Hs Hb Hlen Hrows.
  assert (Hsh : well_shaped (YoloLoss.init s b) 13 predictions
                            (torch_ones 13 s s (5 * b))).
  { unfold well_shaped. cbn [YoloLoss.S YoloLoss.B YoloLoss.init].
    split; [exact Hs |]. split; [exact Hb |]. split; [exact Hlen |].
    split; [now rewrite (Nat.mul_comm b 5) |].
    apply torch_ones_shape_ok. lia. }
  destruct (forward_terms_ok _ 13 predictions _ Hsh)
    as (preds & _ & _ & Hsnd & Hwf & Hts).
  destruct (forward_returns_nonneg _ s b 13 predictions _ eq_refl ltac:(lia) Hsh)
    as (v & Hv & Hpos).
  eexists. exists v. split; [exact Hts |]. split; [| now split].
  cbn zeta. cbn [t_no_object_loss].
  apply all_objects_no_object_loss; [exact Hwf |].
  rewrite Hsnd. apply torch_ones_indicator. lia.
Qed.

Lemma test_runs_witness :
  exists ts v,
    forward_terms (YoloLoss.init 2 3) (repeat (repeat 0 60) 13)
                  (torch_ones 13 2 2 (5 * 3)) = Ok ts /\
    t_no_object_loss ts = 0 /\
    forward (YoloLoss.init 2 3) (repeat (repeat 0 60) 13)
            (torch_ones 13 2 2 (5 * 3)) = Ok v /\
    0 <= v.
Proof.
  apply test_runs; try lia.
  - apply repeat_length.
  - apply Forall_forall. intros row Hrow. apply repeat_spec in Hrow. subst row.
    apply repeat_length.
Defined.

End SelfTest.

(** ** When the loss is zero *)

Section ZeroLoss.

Lemma sqr_zero (x : R) : x * x = 0 <-> x = 0.
Proof.
  split; [| intros ->; ring].
  intros H. destruct (Rmult_integral _ _ H); assumption.
Qed.

Lemma sum2_sqr_zero (a b : R) : a * a + b * b = 0 <-> a = 0 /\ b = 0.
Proof.
  split.
  - intros H. apply (Rplus_sqr_eq_0 a b H).
  - intros [-> ->]. ring.
Qed.

Lemma sum4_sqr_zero (a b c d : R) :
  a * a + b * b + c * c + d * d = 0 <-> a = 0 /\ b = 0 /\ c = 0 /\ d = 0.
Proof.
  split.
  - intros H.
    pose proof (Rle_0_sqr a) as Ha. pose proof (Rle_0_sqr b) as Hb.
    pose proof (Rle_0_sqr c) as Hc. pose proof (Rle_0_sqr d) as Hd.
    unfold Rsqr in *.
    repeat split; apply sqr_zero; lra.
  - intros (-> & -> & -> & ->). ring.
Qed.

Lemma cell_terms_zero (g : gated) :
  wf_cell (snd g) -> (fst g <= 1)%nat -> valid_cell (snd (snd g)) ->
  (box_term g = 0 /\ object_term g = 0 /\ no_object_term (snd g) = 0)
  <-> cell_loss_zero g.
Proof.
  intros Hwf Hb Hv.
  rewrite (box_term_valid g Hwf Hb Hv), (object_term_valid g Hb Hv).
  unfold cell_loss_zero.
  destruct (holds_object_valid g Hv) as [[-> He] | [-> He]].
  - rewrite (no_object_term_object (snd g) He), sum4_sqr_zero, sqr_zero.
    split.
    + intros ((H1 & H2 & H3 & H4) & H0 & _). repeat split; lra.
    + intros (H0 & H1 & H2 & H3 & H4). repeat split; lra.
  - rewrite (no_object_term_valid (snd g) Hv).
    unfold exists_box in He.
    destruct (Req_dec_T (ch 0 (snd (snd g))) 0) as [_ | Hne]; [| contradiction].
    rewrite sum2_sqr_zero. split.
    + now intros (_ & _ & H).
    + intros H. now repeat split.
Qed.

(** X16: for a valid target and N >= 1, the loss is exactly 0 as soon as
    every cell contributes nothing: in cells holding an object the
    selected box has score 1, the target's centre and transformed width
    and height equal to the roots of the target's; in the other cells both
    raw scores are 0. *)
Theorem forward_zero_sufficient (s b n : nat) (predictions : list (list R))
    (target : tensor4) :
  (1 <= n)%nat ->
  well_shaped (YoloLoss.init s b) n predictions target ->
  valid_target target ->
  exists gs,
    gate_cells (YoloLoss.init s b) predictions target = Ok (n, gs) /\
    (Forall cell_loss_zero gs ->
     forward (YoloLoss.init s b) predictions target = Ok 0).
Proof.
  intros Hn Hsh Hvalid.
  destruct (gate_cells_ok _ n predictions target Hsh)
    as (preds & _ & _ & _ & Hsnd & Hwf & Hg).
  set (cells := combine (cells_of preds) (cells_of target)) in *.
  exists (map gate cells). split; [exact Hg |].
  intros Hall.
  pose proof (wf_gated_forall cells Hwf) as Hgw.
  pose proof (gate_bestbox_le_1 cells) as Hle.
  assert (Hv : Forall (fun g : gated => valid_cell (snd (snd g))) (map gate cells)).
  { apply gated_valid. now rewrite Hsnd. }
  assert (Hterms : Forall (fun g : gated =>
            box_term g = 0 /\ object_term g = 0 /\ no_object_term (snd g) = 0)
            (map gate cells)).
  { rewrite !Forall_forall in *. intros g Hin.
    apply (cell_terms_zero g (Hgw g Hin) (Hle g Hin) (Hv g Hin)). now apply Hall. }
  unfold forward, forward_terms. rewrite Hg. cbn [bind]. f_equal.
  unfold total_loss.
  cbn [t_box_loss t_object_loss t_no_object_loss t_batch].
  rewrite (box_loss_sum _ Hgw), (object_loss_sum _ Hgw), (no_object_loss_sum _ Hgw).
  rewrite (Rsum_zero (map box_term _)), (Rsum_zero (map object_term _)),
          (Rsum_zero (map (fun g : gated => no_object_term (snd g)) _)).
  - unfold Rdiv. ring.
  - rewrite Forall_map. eapply Forall_impl; [| exact Hterms]. now intros g (_ & _ & H).
  - rewrite Forall_map. eapply Forall_impl; [| exact Hterms]. now intros g (_ & H & _).
  - rewrite Forall_map. eapply Forall_impl; [| exact Hterms]. now intros g (H & _).
Qed.

Lemma forward_zero_sufficient_witness :
  forward (YoloLoss.init 1 2) [[0; 3; 3; 1; 1; 0; 4; 4; 2; 2]]
          [[[[0; 0; 0; 1; 1]]]] = Ok 0.
Proof.
  assert (Hsh : well_shaped (YoloLoss.init 1 2) 1
                  [[0; 3; 3; 1; 1; 0; 4; 4; 2; 2]] [[[[0; 0; 0; 1; 1]]]]).
  { unfold well_shaped. cbn.
    split; [lia |]. split; [lia |]. split; [reflexivity |].
    split; [| reflexivity].
    constructor; [reflexivity | constructor]. }
  assert (Hvalid : valid_target [[[[0; 0; 0; 1; 1]]]]).
  { unfold valid_target, valid_cell, cells_of, ch. cbn.
    constructor; [| constructor].
    split; [now left | split; simpl; lra]. }
  destruct (forward_zero_sufficient 1 2 1 _ _ (le_n 1) Hsh Hvalid)
    as (gs & Hg & Hzero).
  apply Hzero.
  assert (Hgs : gs = [gate ([0; 3; 3; 1; 1; 0; 4; 4; 2; 2], [0; 0; 0; 1; 1])]).
  { assert (Hc : gate_cells (YoloLoss.init 1 2) [[0; 3; 3; 1; 1; 0; 4; 4; 2; 2]]
                   [[[[0; 0; 0; 1; 1]]]]
                 = Ok (1%nat, [gate ([0; 3; 3; 1; 1; 0; 4; 4; 2; 2], [0; 0; 0; 1; 1])]))
      by reflexivity.
    rewrite Hc in Hg. now injection Hg. }
  subst gs. constructor; [| constructor].
  unfold cell_loss_zero, holds_object, gate. cbn [fst snd].
  destruct (Req_dec_T (ch 0 [0; 0; 0; 1; 1]) 1) as [H1 | _].
  - exfalso. unfold ch in H1. simpl in H1. lra.
  - split; reflexivity.
Defined.

End ZeroLoss.
